(** * Users component: request handlers and validation schemas

    A shallow embedding of [src/api/components/users/users-controller.js]
    and [src/api/components/users/users-validator.js].

    The handlers are [async] functions whose only effects are awaited calls
    into [usersService].  They are embedded as programs of a small monad
    [async] whose single effect is [Await]; the service itself is an
    arbitrary stateful oracle, so that every theorem holds for every
    possible behaviour of the service layer. *)

From Stdlib Require Import Ascii Floats.SpecFloat.
From stdpp Require Import gmap strings list fin_maps.

Set Warnings "-register-all".
Open Scope string_scope.
Open Scope list_scope.

(** ** JavaScript values *)

(** The values that travel through the handlers: what a body parser puts in
    [request.body], what the service resolves with and what is handed to
    [response.json].  Numbers are IEEE doubles ([spec_float]); each
    character of a [string] stands for one code unit of the JS string. *)
Inductive jsval : Type :=
| JUndefined
| JNull
| JBool (b : bool)
| JNum (x : spec_float)
| JStr (s : string)
| JArr (items : list jsval)
| JObj (props : list (string * jsval)).

(** [if (v)]: the falsy values are [undefined], [null], [false], [+0], [-0],
    [NaN] and the empty string. *)
Definition truthy (v : jsval) : bool :=
  match v with
  | JUndefined | JNull => false
  | JBool b => b
  | JNum (S754_zero _) | JNum S754_nan => false
  | JNum _ => true
  | JStr s => negb (String.eqb s "")
  | JArr _ | JObj _ => true
  end.

(** [a === b] for two values read from two different properties of a parsed
    body: primitives compare by value ([NaN] differs from itself, [+0]
    equals [-0]); two arrays or two objects are two distinct references. *)
Definition strict_eq (a b : jsval) : bool :=
  match a, b with
  | JUndefined, JUndefined => true
  | JNull, JNull => true
  | JBool x, JBool y => Bool.eqb x y
  | JNum x, JNum y => SFeqb x y
  | JStr x, JStr y => String.eqb x y
  | _, _ => false
  end.

(** [a !== b] *)
Definition strict_neq (a b : jsval) : bool := negb (strict_eq a b).

(** ** Requests and responses *)

(** An Express request, as far as the handlers read it: the route
    parameters and the body, which the body parser has made an object. *)
Record request : Type := Request {
  params : gmap string jsval;
  body : gmap string jsval
}.

(** [obj.key]: reading a property that is not there gives [undefined]. *)
Definition prop (obj : gmap string jsval) (key : string) : jsval :=
  default JUndefined (obj !! key).

(** Modelled from the spec: [errorTypes] of [core/errors], which is not part
    of this slice; the error taxonomy of section 7. *)
Inductive errorTypes : Type :=
| VALIDATION_ERROR
| INVALID_PASSWORD
| EMAIL_ALREADY_TAKEN
| UNPROCESSABLE_ENTITY
| INVALID_CREDENTIALS.

(** What a [catch (error)] clause can receive: an error built by this
    controller with [errorResponder], or whatever an awaited service promise
    was rejected with. *)
Inductive thrown : Type :=
| AppError (kind : errorTypes) (message : string)
| ServiceRejection (reason : jsval).

(** Modelled from the spec: [errorResponder] of [core/errors], which builds
    the error object [{kind, message}] of section 3. *)
Definition errorResponder (kind : errorTypes) (message : string) : thrown :=
  AppError kind message.

(** How a handler leaves: [response.status(s).json(b)] or [next(error)]. *)
Inductive outcome : Type :=
| Respond (status : Z) (json : jsval)
| Next (error : thrown).

(** ** The service layer *)

(** The calls into [usersService], with their arguments. *)
Inductive call : Type :=
| SGetUsers
| SGetUser (id : jsval)
| SCheckUserEmail (email : jsval)
| SCreateUser (name email password : jsval)
| SUpdateUser (id name email : jsval)
| SCheckLoginCredential (id oldpassword : jsval)
| SPatchUser (id oldpassword newpassword : jsval)
| SDeleteUser (id : jsval).

(** The calls that change stored users (spec, sections 4.2 and 7). *)
Definition is_mutation (c : call) : bool :=
  match c with
  | SCreateUser _ _ _ | SUpdateUser _ _ _ | SPatchUser _ _ _ | SDeleteUser _ => true
  | _ => false
  end.

(** How an awaited promise settles. *)
Inductive reply : Type :=
| Fulfilled (value : jsval)
| Rejected (reason : jsval).

(** ** Async function bodies *)

Inductive async (A : Type) : Type :=
| Return (a : A)
| Throw (e : thrown)
| Await (c : call) (k : reply → async A).

Arguments Return {A} a.
Arguments Throw {A} e.
Arguments Await {A} c k.

Fixpoint bind {A B} (m : async A) (f : A → async B) : async B :=
  match m with
  | Return a => f a
  | Throw e => Throw e
  | Await c k => Await c (λ r, bind (k r) f)
  end.

#[global] Instance async_bind : MBind async := λ A B f m, bind m f.
#[global] Instance async_ret : MRet async := λ A a, Return a.

(** [await usersService.f(args)]: resumes with the value, or throws the
    rejection reason at the [await]. *)
Definition await (c : call) : async jsval :=
  Await c (λ r, match r with
                | Fulfilled v => Return v
                | Rejected e => Throw (ServiceRejection e)
                end).

(** [if (cond) { throw e }] *)
Definition throw_if (cond : bool) (e : thrown) : async unit :=
  if cond then Throw e else Return tt.

(** [try { block } catch (error) { handler }] *)
Fixpoint try_catch {A} (block : async A) (handler : thrown → async A) : async A :=
  match block with
  | Return a => Return a
  | Throw e => handler e
  | Await c k => Await c (λ r, try_catch (k r) handler)
  end.

(** [{ name, email }] and [{ id }] *)
Definition object (props : list (string * jsval)) : jsval := JObj props.

(** ** The handlers of users-controller.js *)

Definition getUsers (request : request) : async outcome :=
  try_catch
    (users ← await SGetUsers;
     Return (Respond 200 users))
    (λ error, Return (Next error)).

Definition getUser (request : request) : async outcome :=
  try_catch
    (user ← await (SGetUser (prop (params request) "id"));
     throw_if (negb (truthy user))
       (errorResponder UNPROCESSABLE_ENTITY "Unknown user") ;;
     Return (Respond 200 user))
    (λ error, Return (Next error)).

Definition createUser (request : request) : async outcome :=
  try_catch
    (let name := prop (body request) "name" in
     let email := prop (body request) "email" in
     let password := prop (body request) "password" in
     let confirmpassword := prop (body request) "confirmpassword" in
     throw_if (strict_neq confirmpassword password)
       (errorResponder INVALID_PASSWORD "Passwords did not match") ;;
     emailExists ← await (SCheckUserEmail email);
     throw_if (truthy emailExists)
       (errorResponder EMAIL_ALREADY_TAKEN "Email already taken") ;;
     success ← await (SCreateUser name email password);
     throw_if (negb (truthy success))
       (errorResponder UNPROCESSABLE_ENTITY "Failed to create user") ;;
     Return (Respond 200 (object [("name", name); ("email", email)])))
    (λ error, Return (Next error)).

Definition updateUser (request : request) : async outcome :=
  try_catch
    (let id := prop (params request) "id" in
     let name := prop (body request) "name" in
     let email := prop (body request) "email" in
     let password := prop (body request) "password" in
     let confirmpassword := prop (body request) "confirmpassword" in
     throw_if (strict_neq confirmpassword password)
       (errorResponder INVALID_PASSWORD "Passwords did not match") ;;
     emailExists ← await (SCheckUserEmail email);
     throw_if (truthy emailExists)
       (errorResponder EMAIL_ALREADY_TAKEN "Email already taken") ;;
     success ← await (SUpdateUser id name email);
     throw_if (negb (truthy success))
       (errorResponder UNPROCESSABLE_ENTITY "Failed to update user") ;;
     Return (Respond 200 (object [("id", id)])))
    (λ error, Return (Next error)).

Definition patchUser (request : request) : async outcome :=
  try_catch
    (let id := prop (params request) "id" in
     let oldpassword := prop (body request) "oldpassword" in
     let newpassword := prop (body request) "newpassword" in
     let confirmnewpassword := prop (body request) "confirmnewpassword" in
     check ← await (SCheckLoginCredential id oldpassword);
     throw_if (truthy check)
       (errorResponder INVALID_PASSWORD "Wrong password!") ;;
     throw_if (strict_neq newpassword confirmnewpassword)
       (errorResponder INVALID_PASSWORD
          "Your new password doesnt match the confirm new password!") ;;
     throw_if (strict_eq oldpassword newpassword)
       (errorResponder UNPROCESSABLE_ENTITY
          "Your new password cant be the same as the old one!") ;;
     checking ← await (SPatchUser id oldpassword confirmnewpassword);
     throw_if (negb (truthy checking))
       (errorResponder INVALID_CREDENTIALS "Fail to patch user") ;;
     Return (Respond 200 (object [("id", id)])))
    (λ error, Return (Next error)).

Definition deleteUser (request : request) : async outcome :=
  try_catch
    (let id := prop (params request) "id" in
     success ← await (SDeleteUser id);
     throw_if (negb (truthy success))
       (errorResponder UNPROCESSABLE_ENTITY "Failed to delete user") ;;
     Return (Respond 200 (object [("id", id)])))
    (λ error, Return (Next error)).

(** ** Running a handler against a service *)

(** How an async function call ends: it returns, or it throws out of the
    function (an unhandled rejection). *)
Inductive completion (A : Type) : Type :=
| Returned (a : A)
| Threw (e : thrown).

Arguments Returned {A} a.
Arguments Threw {A} e.

Section Run.
(** The service layer: any state [W], any reaction to a call. *)
Context {W : Type} (service : call → W → reply * W).

(** Runs a program; gives how it ended, the calls made with their
    replies in order, and the final state of the service. *)
Fixpoint run {A} (m : async A) (w : W)
  : completion A * list (call * reply) * W :=
  match m with
  | Return a => (Returned a, [], w)
  | Throw e => (Threw e, [], w)
  | Await c k =>
      let '(r, w1) := service c w in
      let '(res, log, w2) := run (k r) w1 in
      (res, (c, r) :: log, w2)
  end.
End Run.

Definition result_of {A W} (x : completion A * list (call * reply) * W) : completion A :=
  x.1.1.
Definition calls_of {A W} (x : completion A * list (call * reply) * W) : list call :=
  x.1.2.*1.
Definition mutations_of {A W} (x : completion A * list (call * reply) * W) : list call :=
  filter (λ c, is_mutation c = true) (calls_of x).

(** The handlers exported by the controller. *)
Inductive handler : Type :=
| HGetUsers | HGetUser | HCreateUser | HUpdateUser | HDeleteUser | HPatchUser.

Definition handle (h : handler) : request → async outcome :=
  match h with
  | HGetUsers => getUsers
  | HGetUser => getUser
  | HCreateUser => createUser
  | HUpdateUser => updateUser
  | HDeleteUser => deleteUser
  | HPatchUser => patchUser
  end.

(** ** The validation schemas of users-validator.js *)

(** The part of joi the schemas use: string schemas built by chaining
    [min], [max], [email], [required] and [label]. *)
Module joi.
Inductive rule : Type :=
| Min (limit : nat)
| Max (limit : nat)
| Email.

Record schema : Type := Schema {
  rules : list rule;
  presence_required : bool;
  flag_label : option String.string
}.

Definition add_rule (r : rule) (s : schema) : schema :=
  Schema (rules s ++ [r]) (presence_required s) (flag_label s).

Definition min (limit : nat) : schema → schema := add_rule (Min limit).
Definition max (limit : nat) : schema → schema := add_rule (Max limit).
Definition email : schema → schema := add_rule Email.
Definition required (s : schema) : schema :=
  Schema (rules s) true (flag_label s).
Definition label (name : String.string) (s : schema) : schema :=
  Schema (rules s) (presence_required s) (Some name).

Definition string : schema := Schema [] false None.

(** The error codes joi reports for these schemas. *)
Inductive violation : Type :=
| any_required
| string_base
| string_empty
| string_min (limit : nat)
| string_max (limit : nat)
| string_email
| object_unknown.
End joi.

(** Method chaining: [s .> f] is [s.f()]. *)
Notation "s .> f" := (f s) (at level 45, left associativity, only parsing).

Module usersValidator.
Definition createUser : list (string * joi.schema) :=
  [ ("name", joi.string .> joi.min 1 .> joi.max 100 .> joi.required .> joi.label "Name");
    ("email", joi.string .> joi.email .> joi.required .> joi.label "Email");
    ("password", joi.string .> joi.min 6 .> joi.max 32 .> joi.required .> joi.label "Password");
    ("confirmpassword",
      joi.string .> joi.min 6 .> joi.max 32 .> joi.required .> joi.label "Confirm Password") ].

Definition updateUser : list (string * joi.schema) :=
  [ ("name", joi.string .> joi.min 1 .> joi.max 100 .> joi.required .> joi.label "Name");
    ("email", joi.string .> joi.email .> joi.required .> joi.label "Email") ].

Definition patchUser : list (string * joi.schema) :=
  [ ("oldpassword",
      joi.string .> joi.min 6 .> joi.max 32 .> joi.required .> joi.label "Old Password");
    ("newpassword",
      joi.string .> joi.min 6 .> joi.max 32 .> joi.required .> joi.label "New Password");
    ("confirmnewpassword",
      joi.string .> joi.min 6 .> joi.max 32 .> joi.required
                 .> joi.label "Confirm New Password") ].
End usersValidator.

(** Validating a body against a schema.  joi itself is a dependency, not
    part of the repository: its email rule is a parameter, and whether
    undeclared keys are tolerated is the option [allowUnknown] of whoever
    runs the validation (joi's default is not to). *)
Section Validate.
Context (isEmail : string → bool).

Definition check_rule (r : joi.rule) (s : string) : option joi.violation :=
  match r with
  | joi.Min limit =>
      if (String.length s <? limit)%nat then Some (joi.string_min limit) else None
  | joi.Max limit =>
      if (limit <? String.length s)%nat then Some (joi.string_max limit) else None
  | joi.Email => if isEmail s then None else Some joi.string_email
  end.

(** Rules run in the order they were chained; the first failure wins. *)
Fixpoint check_rules (rs : list joi.rule) (s : string) : option joi.violation :=
  match rs with
  | [] => None
  | r :: rs' =>
      match check_rule r s with
      | Some v => Some v
      | None => check_rules rs' s
      end
  end.

Definition validate_value (sch : joi.schema) (v : jsval) : option joi.violation :=
  match v with
  | JUndefined =>
      if joi.presence_required sch then Some joi.any_required else None
  | JStr s =>
      if String.eqb s "" then Some joi.string_empty
      else check_rules (joi.rules sch) s
  | _ => Some joi.string_base
  end.

(** Declared keys are checked in declaration order; an error carries the
    label of the field. *)
Fixpoint validate_keys (keys : list (string * joi.schema)) (obj : gmap string jsval)
  : option (string * joi.violation) :=
  match keys with
  | [] => None
  | (key, sch) :: keys' =>
      match validate_value sch (prop obj key) with
      | Some v => Some (default key (joi.flag_label sch), v)
      | None => validate_keys keys' obj
      end
  end.

(** The undeclared keys of a body (in no particular order: which one is
    reported first is not modelled). *)
Definition unknown_keys (keys : list (string * joi.schema)) (obj : gmap string jsval)
  : list string :=
  filter (λ k, k ∉ keys.*1) (elements (dom obj)).

Definition validate (allowUnknown : bool) (keys : list (string * joi.schema))
    (obj : gmap string jsval) : option (string * joi.violation) :=
  match validate_keys keys obj with
  | Some err => Some err
  | None =>
      if allowUnknown then None
      else match unknown_keys keys obj with
           | [] => None
           | k :: _ => Some (k, joi.object_unknown)
           end
  end.
End Validate.

(** Whether a string has an [@] in it. *)
Fixpoint has_at (s : string) : bool :=
  match s with
  | EmptyString => false
  | String c s' => Ascii.eqb c "@"%char || has_at s'
  end.

(** ** Definitions the statements compare the code with *)

(** [patchUser] as it would read if it handed [newpassword], not
    [confirmnewpassword], to [usersService.patchUser]; everything else is
    the source's [patchUser]. *)
Definition patchUser_passing_newpassword (request : request) : async outcome :=
  try_catch
    (let id := prop (params request) "id" in
     let oldpassword := prop (body request) "oldpassword" in
     let newpassword := prop (body request) "newpassword" in
     let confirmnewpassword := prop (body request) "confirmnewpassword" in
     check ← await (SCheckLoginCredential id oldpassword);
     throw_if (truthy check)
       (errorResponder INVALID_PASSWORD "Wrong password!") ;;
     throw_if (strict_neq newpassword confirmnewpassword)
       (errorResponder INVALID_PASSWORD
          "Your new password doesnt match the confirm new password!") ;;
     throw_if (strict_eq oldpassword newpassword)
       (errorResponder UNPROCESSABLE_ENTITY
          "Your new password cant be the same as the old one!") ;;
     checking ← await (SPatchUser id oldpassword newpassword);
     throw_if (negb (truthy checking))
       (errorResponder INVALID_CREDENTIALS "Fail to patch user") ;;
     Return (Respond 200 (object [("id", id)])))
    (λ error, Return (Next error)).

(** The two values [===] identifies although they can be told apart:
    zeros of opposite sign. *)
Definition opposite_zeros (a b : jsval) : bool :=
  match a, b with
  | JNum (S754_zero s1), JNum (S754_zero s2) => negb (Bool.eqb s1 s2)
  | _, _ => false
  end.

Section Guards.
Context {W : Type} (service : call → W → reply * W) (w : W).

(** A guard decided by the handler alone. *)
Definition own_guard (violated : bool) (e : thrown) : list thrown :=
  if violated then [e] else [].

(** A guard decided by a lookup: the error it raises when the lookup is
    made in state [w], if any.  A lookup that is rejected raises the
    rejection. *)
Definition lookup_guard (c : call) (violated : jsval → bool) (e : thrown)
  : list thrown :=
  match (service c w).1 with
  | Fulfilled v => if violated v then [e] else []
  | Rejected r => [ServiceRejection r]
  end.

(** The guard checks of each handler in the order of section 4.2 of the
    spec, each one evaluated on its own for a request arriving in state
    [w]: the errors of all the guards the request violates. *)
Definition guard_errors (h : handler) (request : request) : list thrown :=
  let b := body request in
  let id := prop (params request) "id" in
  match h with
  | HGetUsers => []
  | HGetUser =>
      lookup_guard (SGetUser id) (λ user, negb (truthy user))
        (AppError UNPROCESSABLE_ENTITY "Unknown user")
  | HCreateUser | HUpdateUser =>
      own_guard (strict_neq (prop b "confirmpassword") (prop b "password"))
        (AppError INVALID_PASSWORD "Passwords did not match")
      ++ lookup_guard (SCheckUserEmail (prop b "email")) truthy
           (AppError EMAIL_ALREADY_TAKEN "Email already taken")
  | HPatchUser =>
      lookup_guard (SCheckLoginCredential id (prop b "oldpassword")) truthy
        (AppError INVALID_PASSWORD "Wrong password!")
      ++ own_guard (strict_neq (prop b "newpassword") (prop b "confirmnewpassword"))
           (AppError INVALID_PASSWORD
              "Your new password doesnt match the confirm new password!")
      ++ own_guard (strict_eq (prop b "oldpassword") (prop b "newpassword"))
           (AppError UNPROCESSABLE_ENTITY
              "Your new password cant be the same as the old one!")
  | HDeleteUser => []
  end.
End Guards.

(** ** Sample requests and services *)

(** A service that answers every email lookup with [emailExists], every
    credential check with [check], every record lookup with [user] and every
    mutation with [success]; its state counts the calls it has served. *)
Definition fixed_service (emailExists check user success : jsval)
  : call → nat → reply * nat :=
  λ c n,
    (Fulfilled (match c with
                | SCheckUserEmail _ => emailExists
                | SCheckLoginCredential _ _ => check
                | SGetUsers | SGetUser _ => user
                | _ => success
                end), S n).

(** A service whose password patch fails on a negative zero. *)
Definition sign_sensitive_service : call → nat → reply * nat :=
  λ c n,
    match c with
    | SPatchUser _ _ (JNum (S754_zero true)) => (Fulfilled (JBool false), S n)
    | SCheckLoginCredential _ _ => (Fulfilled (JBool false), S n)
    | _ => (Fulfilled (JBool true), S n)
    end.

Definition create_request (name email password confirmpassword : jsval) : request :=
  Request ∅
    (<["name" := name]> (<["email" := email]> (<["password" := password]>
       {["confirmpassword" := confirmpassword]}))).

Definition update_request (id : jsval) (fields : list (string * jsval)) : request :=
  Request {["id" := id]} (list_to_map fields).

Definition patch_request (id oldpassword newpassword confirmnewpassword : jsval)
  : request :=
  Request {["id" := id]}
    (<["oldpassword" := oldpassword]> (<["newpassword" := newpassword]>
       {["confirmnewpassword" := confirmnewpassword]})).

(** A small in-memory service: its state is the list of registered users
    (email, password); ids are emails. *)
Definition registry_lookup (users : list (string * string)) (email : jsval)
  : option string :=
  match email with
  | JStr e => (λ found, found.2.2) <$> list_find (λ u, u.1 = e) users
  | _ => None
  end.

Definition registry_service : call → list (string * string) → reply * list (string * string) :=
  λ c users,
    match c with
    | SGetUsers => (Fulfilled (JArr ((λ u, JStr u.1) <$> users)), users)
    | SGetUser id =>
        (Fulfilled (if bool_decide (is_Some (registry_lookup users id))
                    then JObj [("email", id)] else JNull), users)
    | SCheckUserEmail email =>
        (Fulfilled (JBool (bool_decide (is_Some (registry_lookup users email)))), users)
    | SCreateUser _ (JStr email) (JStr password) =>
        (Fulfilled (JBool true), (users ++ [(email, password)])%list)
    | SUpdateUser id _ _ =>
        (Fulfilled (JBool (bool_decide (is_Some (registry_lookup users id)))), users)
    | SCheckLoginCredential id (JStr password) =>
        (Fulfilled (JBool (bool_decide (registry_lookup users id ≠ Some password))), users)
    | SPatchUser (JStr id) _ (JStr password) =>
        (Fulfilled (JBool (bool_decide (is_Some (registry_lookup users (JStr id))))),
         (λ u, if bool_decide (u.1 = id) then (id, password) else u) <$> users)
    | SDeleteUser (JStr id) =>
        (Fulfilled (JBool (bool_decide (is_Some (registry_lookup users (JStr id))))),
         filter (λ u, u.1 ≠ id) users)
    | _ => (Rejected (JStr "bad argument"), users)
    end.

(** One registered user. *)
Definition registry : list (string * string) := [("bob@x.com", "abcdef")].

Definition alice : request :=
  create_request (JStr "Alice") (JStr "a@x.com") (JStr "secret1") (JStr "secret1").
Definition alice_mismatch : request :=
  create_request (JStr "Alice") (JStr "a@x.com") (JStr "secret1") (JStr "secret2").
Definition bob_again : request :=
  create_request (JStr "Bob") (JStr "bob@x.com") (JStr "secret1") (JStr "secret1").
Definition bob_same_password : request :=
  patch_request (JStr "bob@x.com") (JStr "abcdef") (JStr "abcdef") (JStr "abcdef").
Definition bob_new_password : request :=
  patch_request (JStr "bob@x.com") (JStr "abcdef") (JStr "ghijkl") (JStr "ghijkl").
Definition bob_wrong_password : request :=
  patch_request (JStr "bob@x.com") (JStr "123456") (JStr "ghijkl") (JStr "zzzzzz").

(** A stand-in for joi's email rule: the string has an [@], and not as its
    first character. *)
Definition simple_email (s : string) : bool :=
  has_at s && negb (String.eqb (String.substring 0 1 s) "@").

(** A property as a handler sees it: one that holds [undefined] reads like
    one that is missing (a body parsed from JSON holds none). *)
Definition absent (obj : gmap string jsval) (key : string) : Prop :=
  prop obj key = JUndefined.
Definition supplied (obj : gmap string jsval) (key : string) : Prop :=
  prop obj key ≠ JUndefined.

(** What the schemas ask of a field, in words of the body alone. *)
Definition string_of_length (lo hi : nat) (v : jsval) : Prop :=
  ∃ s, v = JStr s ∧ (lo ≤ String.length s ≤ hi)%nat.

Definition email_string (isEmail : string → bool) (v : jsval) : Prop :=
  ∃ s, v = JStr s ∧ s ≠ "" ∧ isEmail s = true.

(** ** What the handlers read, ask and answer *)

(** The calls a handler makes when nothing stops it, in the order of its
    [await]s, with the arguments it reads from the request. *)
Definition call_plan (h : handler) (request : request) : list call :=
  let b := body request in
  let id := prop (params request) "id" in
  match h with
  | HGetUsers => [SGetUsers]
  | HGetUser => [SGetUser id]
  | HCreateUser =>
      [SCheckUserEmail (prop b "email");
       SCreateUser (prop b "name") (prop b "email") (prop b "password")]
  | HUpdateUser =>
      [SCheckUserEmail (prop b "email");
       SUpdateUser id (prop b "name") (prop b "email")]
  | HDeleteUser => [SDeleteUser id]
  | HPatchUser =>
      [SCheckLoginCredential id (prop b "oldpassword");
       SPatchUser id (prop b "oldpassword") (prop b "confirmnewpassword")]
  end.

(** The error kinds each handler hands to [errorResponder]. *)
Definition error_kinds (h : handler) : list errorTypes :=
  match h with
  | HGetUsers => []
  | HGetUser | HDeleteUser => [UNPROCESSABLE_ENTITY]
  | HCreateUser | HUpdateUser =>
      [INVALID_PASSWORD; EMAIL_ALREADY_TAKEN; UNPROCESSABLE_ENTITY]
  | HPatchUser => [INVALID_PASSWORD; UNPROCESSABLE_ENTITY; INVALID_CREDENTIALS]
  end.

(** The properties of [request.params] and of [request.body] each handler
    reads. *)
Definition params_read (h : handler) : list string :=
  match h with
  | HGetUsers | HCreateUser => []
  | _ => ["id"]
  end.

Definition body_read (h : handler) : list string :=
  match h with
  | HCreateUser | HUpdateUser => ["name"; "email"; "password"; "confirmpassword"]
  | HPatchUser => ["oldpassword"; "newpassword"; "confirmnewpassword"]
  | _ => []
  end.

(** Two requests that look the same to a handler. *)
Definition same_reads (h : handler) (r1 r2 : request) : Prop :=
  Forall (λ k, prop (params r1) k = prop (params r2) k) (params_read h)
  ∧ Forall (λ k, prop (body r1) k = prop (body r2) k) (body_read h).

(** A settled promise that was fulfilled. *)
Definition fulfilled (r : reply) : Prop := ∃ v, r = Fulfilled v.

(** More sample requests. *)
Definition alice_as_admin : request :=
  Request {["id" := JStr "0"]}
    (<["role" := JStr "admin"]> (<["id" := JStr "0"]> (body alice))).
Definition nameless_email : request :=
  create_request (JStr "Carol") JNull (JStr "secret1") (JStr "secret1").
Definition bob_renamed (password : string) : request :=
  update_request (JStr "bob@x.com")
    [("name", JStr "Robert"); ("email", JStr "bob@y.com");
     ("password", JStr password); ("confirmpassword", JStr password)].

(** ** Properties *)

Ltac unfold_handlers :=
  unfold getUsers, getUser, createUser, updateUser, patchUser, deleteUser,
    patchUser_passing_newpassword, await, throw_if, errorResponder, object,
    strict_neq, mbind, async_bind in *.

Ltac split_run :=
  unfold result_of, mutations_of, calls_of; unfold_handlers; simpl;
  repeat (case_match; simplify_eq/=).

Ltac elem_cases H :=
  repeat (apply elem_of_cons in H as [H | H]; simplify_eq/=);
  try (by apply elem_of_nil in H).

Lemma updateUser_password_mismatch {W} (service : call → W → reply * W) (w : W)
    (req : request) :
  strict_eq (prop (body req) "confirmpassword") (prop (body req) "password") = false →
  run service (updateUser req) w
    = (Returned (Next (AppError INVALID_PASSWORD "Passwords did not match")), [], w).
Proof. intros Hne. unfold_handlers. rewrite Hne. reflexivity. Qed.

(** C1: in [createUser] and in [updateUser], a request whose
    [confirmpassword] is not strictly equal to its [password] ends in
    [next] with the error INVALID_PASSWORD, message "Passwords did not
    match", and no service call is made at all: the log of calls is empty
    and the state of the service is untouched. *)
Theorem password_mismatch_rejected {W} (service : call → W → reply * W) (w : W)
    (req : request) :
  strict_eq (prop (body req) "confirmpassword") (prop (body req) "password") = false →
  run service (createUser req) w
    = (Returned (Next (AppError INVALID_PASSWORD "Passwords did not match")), [], w)
  ∧ run service (updateUser req) w
    = (Returned (Next (AppError INVALID_PASSWORD "Passwords did not match")), [], w).
Proof.
  intros Hne. unfold_handlers. rewrite Hne. simpl. done.
Qed.

Lemma password_mismatch_rejected_witness :
  strict_eq (prop (body alice_mismatch) "confirmpassword")
            (prop (body alice_mismatch) "password") = false
  ∧ run registry_service (createUser alice_mismatch) registry
    = (Returned (Next (AppError INVALID_PASSWORD "Passwords did not match")), [], registry)
  ∧ run registry_service (updateUser alice_mismatch) registry
    = (Returned (Next (AppError INVALID_PASSWORD "Passwords did not match")), [], registry).
Proof.
  split; [reflexivity |].
  apply (password_mismatch_rejected registry_service registry alice_mismatch).
  reflexivity.
Defined.

Example registry_runs :
  run registry_service (createUser alice) registry
  = (Returned (Respond 200 (JObj [("name", JStr "Alice"); ("email", JStr "a@x.com")])),
     [(SCheckUserEmail (JStr "a@x.com"), Fulfilled (JBool false));
      (SCreateUser (JStr "Alice") (JStr "a@x.com") (JStr "secret1"), Fulfilled (JBool true))],
     [("bob@x.com", "abcdef"); ("a@x.com", "secret1")]).
Proof. vm_compute. reflexivity. Qed.

(** C2: in [patchUser], once the credential check lets the request through,
    a [newpassword] that differs from [confirmnewpassword] is reported as
    INVALID_PASSWORD whatever [oldpassword] is, so that check comes first;
    and when [newpassword] equals both [confirmnewpassword] and
    [oldpassword] the result is UNPROCESSABLE_ENTITY, not
    INVALID_PASSWORD. *)
Theorem patchUser_check_order {W} (service : call → W → reply * W) (w w1 : W)
    (req : request) (check : jsval) :
  let id := prop (params req) "id" in
  let oldpassword := prop (body req) "oldpassword" in
  let newpassword := prop (body req) "newpassword" in
  let confirmnewpassword := prop (body req) "confirmnewpassword" in
  service (SCheckLoginCredential id oldpassword) w = (Fulfilled check, w1) →
  truthy check = false →
  (strict_eq newpassword confirmnewpassword = false →
   run service (patchUser req) w
   = (Returned (Next (AppError INVALID_PASSWORD
                        "Your new password doesnt match the confirm new password!")),
      [(SCheckLoginCredential id oldpassword, Fulfilled check)], w1))
  ∧ (strict_eq newpassword confirmnewpassword = true →
     strict_eq oldpassword newpassword = true →
     run service (patchUser req) w
     = (Returned (Next (AppError UNPROCESSABLE_ENTITY
                          "Your new password cant be the same as the old one!")),
        [(SCheckLoginCredential id oldpassword, Fulfilled check)], w1)).
Proof.
  intros id old new confirm Hs Hcheck. unfold_handlers.
  split.
  - intros Hne. simpl. fold id old new confirm. rewrite Hs. simpl.
    rewrite Hcheck. simpl. rewrite Hne. reflexivity.
  - intros Heq Hsame. simpl. fold id old new confirm. rewrite Hs. simpl.
    rewrite Hcheck. simpl. rewrite Heq. simpl. rewrite Hsame. reflexivity.
Qed.

Lemma patchUser_check_order_witness :
  registry_service (SCheckLoginCredential (JStr "bob@x.com") (JStr "abcdef")) registry
    = (Fulfilled (JBool false), registry)
  ∧ truthy (JBool false) = false
  ∧ strict_eq (JStr "abcdef") (JStr "abcdef") = true
  ∧ run registry_service (patchUser bob_same_password) registry
    = (Returned (Next (AppError UNPROCESSABLE_ENTITY
                         "Your new password cant be the same as the old one!")),
       [(SCheckLoginCredential (JStr "bob@x.com") (JStr "abcdef"),
         Fulfilled (JBool false))], registry).
Proof.
  split; [reflexivity |]. split; [reflexivity |]. split; [reflexivity |].
  apply (patchUser_check_order registry_service registry registry
           bob_same_password (JBool false)); reflexivity.
Defined.

(** C3: [patchUser] starts with the call
    [checkLoginCredential(id, oldpassword)], whatever the request; when that
    call resolves to a truthy value the handler ends in [next] with
    INVALID_PASSWORD, message "Wrong password!", and that lookup is the only
    service call made. *)
Theorem patchUser_wrong_password {W} (service : call → W → reply * W) (w w1 : W)
    (req : request) (check : jsval) :
  let id := prop (params req) "id" in
  let oldpassword := prop (body req) "oldpassword" in
  service (SCheckLoginCredential id oldpassword) w = (Fulfilled check, w1) →
  truthy check = true →
  (∃ k, patchUser req = Await (SCheckLoginCredential id oldpassword) k)
  ∧ run service (patchUser req) w
    = (Returned (Next (AppError INVALID_PASSWORD "Wrong password!")),
       [(SCheckLoginCredential id oldpassword, Fulfilled check)], w1).
Proof.
  intros id old Hs Hcheck. split.
  - unfold_handlers. simpl. eauto.
  - unfold_handlers. simpl. fold id old. rewrite Hs. simpl.
    rewrite Hcheck. reflexivity.
Qed.

Lemma patchUser_wrong_password_witness :
  registry_service (SCheckLoginCredential (JStr "bob@x.com") (JStr "123456")) registry
    = (Fulfilled (JBool true), registry)
  ∧ truthy (JBool true) = true
  ∧ run registry_service (patchUser bob_wrong_password) registry
    = (Returned (Next (AppError INVALID_PASSWORD "Wrong password!")),
       [(SCheckLoginCredential (JStr "bob@x.com") (JStr "123456"),
         Fulfilled (JBool true))], registry).
Proof.
  split; [reflexivity |]. split; [reflexivity |].
  apply (patchUser_wrong_password registry_service registry registry
           bob_wrong_password (JBool true)); reflexivity.
Defined.

(** C4: in [createUser] and in [updateUser], when the password fields match
    and the email lookup resolves to a truthy value, the handler ends in
    [next] with EMAIL_ALREADY_TAKEN whatever the other fields are, and the
    lookup is the only service call made: no mutation. *)
Theorem email_taken_rejected {W} (service : call → W → reply * W) (w w1 : W)
    (req : request) (emailExists : jsval) :
  let email := prop (body req) "email" in
  strict_eq (prop (body req) "confirmpassword") (prop (body req) "password") = true →
  service (SCheckUserEmail email) w = (Fulfilled emailExists, w1) →
  truthy emailExists = true →
  run service (createUser req) w
    = (Returned (Next (AppError EMAIL_ALREADY_TAKEN "Email already taken")),
       [(SCheckUserEmail email, Fulfilled emailExists)], w1)
  ∧ run service (updateUser req) w
    = (Returned (Next (AppError EMAIL_ALREADY_TAKEN "Email already taken")),
       [(SCheckUserEmail email, Fulfilled emailExists)], w1).
Proof.
  intros email Heq Hs Htaken. unfold_handlers. rewrite Heq. simpl.
  fold email. rewrite Hs. simpl. rewrite Htaken. done.
Qed.

Lemma email_taken_rejected_witness :
  strict_eq (prop (body bob_again) "confirmpassword")
            (prop (body bob_again) "password") = true
  ∧ registry_service (SCheckUserEmail (JStr "bob@x.com")) registry
    = (Fulfilled (JBool true), registry)
  ∧ mutations_of (run registry_service (createUser bob_again) registry) = []
  ∧ result_of (run registry_service (createUser bob_again) registry)
    = Returned (Next (AppError EMAIL_ALREADY_TAKEN "Email already taken")).
Proof.
  split; [reflexivity |]. split; [reflexivity |].
  destruct (email_taken_rejected registry_service registry registry
              bob_again (JBool true)) as [Hcreate _]; [reflexivity ..|].
  rewrite Hcreate. split; reflexivity.
Defined.

(** *** No handler throws out of its [try] block *)

Lemma try_catch_next_returns {W} (service : call → W → reply * W)
    (block : async outcome) (w : W) :
  ∃ o, result_of (run service (try_catch block (λ error, Return (Next error))) w)
       = Returned o.
Proof.
  revert w. induction block as [o | e | c k IH]; intros w; simpl.
  - by exists o.
  - by exists (Next e).
  - destruct (service c w) as [r w1]. destruct (IH r w1) as [o Ho].
    exists o. revert Ho. unfold result_of.
    by destruct (run service (try_catch (k r) _) w1) as [[res log] w2].
Qed.

Lemma handle_returns {W} (service : call → W → reply * W) (h : handler)
    (req : request) (w : W) :
  ∃ o, result_of (run service (handle h req) w) = Returned o.
Proof. destruct h; apply try_catch_next_returns. Qed.

(** C5: how failures of the service layer are reported.  [getUser] always
    ends in a response or in [next], never by throwing, and a falsy record
    gives UNPROCESSABLE_ENTITY "Unknown user"; a create, update or delete
    call that resolves to a falsy value gives UNPROCESSABLE_ENTITY; a
    password patch call that resolves to a falsy value gives
    INVALID_CREDENTIALS. *)
Theorem service_failures_reported {W} (service : call → W → reply * W)
    (req : request) :
  let id := prop (params req) "id" in
  let b := body req in
  (∀ w, ∃ o, result_of (run service (getUser req) w) = Returned o)
  ∧ (∀ w w1 user,
       service (SGetUser id) w = (Fulfilled user, w1) →
       truthy user = false →
       run service (getUser req) w
       = (Returned (Next (AppError UNPROCESSABLE_ENTITY "Unknown user")),
          [(SGetUser id, Fulfilled user)], w1))
  ∧ (∀ w w1 w2 emailExists success,
       strict_eq (prop b "confirmpassword") (prop b "password") = true →
       service (SCheckUserEmail (prop b "email")) w = (Fulfilled emailExists, w1) →
       truthy emailExists = false →
       service (SCreateUser (prop b "name") (prop b "email") (prop b "password")) w1
         = (Fulfilled success, w2) →
       truthy success = false →
       result_of (run service (createUser req) w)
       = Returned (Next (AppError UNPROCESSABLE_ENTITY "Failed to create user")))
  ∧ (∀ w w1 w2 emailExists success,
       strict_eq (prop b "confirmpassword") (prop b "password") = true →
       service (SCheckUserEmail (prop b "email")) w = (Fulfilled emailExists, w1) →
       truthy emailExists = false →
       service (SUpdateUser id (prop b "name") (prop b "email")) w1
         = (Fulfilled success, w2) →
       truthy success = false →
       result_of (run service (updateUser req) w)
       = Returned (Next (AppError UNPROCESSABLE_ENTITY "Failed to update user")))
  ∧ (∀ w w1 success,
       service (SDeleteUser id) w = (Fulfilled success, w1) →
       truthy success = false →
       result_of (run service (deleteUser req) w)
       = Returned (Next (AppError UNPROCESSABLE_ENTITY "Failed to delete user")))
  ∧ (∀ w w1 w2 check checking,
       service (SCheckLoginCredential id (prop b "oldpassword")) w
         = (Fulfilled check, w1) →
       truthy check = false →
       strict_eq (prop b "newpassword") (prop b "confirmnewpassword") = true →
       strict_eq (prop b "oldpassword") (prop b "newpassword") = false →
       service (SPatchUser id (prop b "oldpassword") (prop b "confirmnewpassword")) w1
         = (Fulfilled checking, w2) →
       truthy checking = false →
       result_of (run service (patchUser req) w)
       = Returned (Next (AppError INVALID_CREDENTIALS "Fail to patch user"))).
Proof.
  intros id b. repeat split.
  - intros w. apply try_catch_next_returns.
  - intros w w1 user Hs Hu. unfold_handlers. simpl. fold id. rewrite Hs.
    simpl. rewrite Hu. reflexivity.
  - intros w w1 w2 ex ok Heq Hs1 Hex Hs2 Hok. unfold_handlers. fold b.
    rewrite Heq. simpl. rewrite Hs1. simpl. rewrite Hex. simpl.
    rewrite Hs2. simpl. rewrite Hok. reflexivity.
  - intros w w1 w2 ex ok Heq Hs1 Hex Hs2 Hok. unfold_handlers. fold b id.
    rewrite Heq. simpl. rewrite Hs1. simpl. rewrite Hex. simpl.
    rewrite Hs2. simpl. rewrite Hok. reflexivity.
  - intros w w1 ok Hs Hok. unfold_handlers. simpl. fold id. rewrite Hs.
    simpl. rewrite Hok. reflexivity.
  - intros w w1 w2 chk ok Hs1 Hchk Heq Hne Hs2 Hok. unfold_handlers. simpl.
    fold b id. rewrite Hs1. simpl. rewrite Hchk. simpl. rewrite Heq. simpl.
    rewrite Hne. simpl. rewrite Hs2. simpl. rewrite Hok. reflexivity.
Qed.

(** The failures at work on a service whose lookups pass and whose
    mutations all fail. *)
Lemma service_failures_reported_witness :
  let failing := fixed_service (JBool false) (JBool false) JNull (JBool false) in
  result_of (run failing (getUser bob_new_password) 0)
    = Returned (Next (AppError UNPROCESSABLE_ENTITY "Unknown user"))
  ∧ result_of (run failing (createUser alice) 0)
    = Returned (Next (AppError UNPROCESSABLE_ENTITY "Failed to create user"))
  ∧ result_of (run failing (updateUser alice) 0)
    = Returned (Next (AppError UNPROCESSABLE_ENTITY "Failed to update user"))
  ∧ result_of (run failing (deleteUser bob_new_password) 0)
    = Returned (Next (AppError UNPROCESSABLE_ENTITY "Failed to delete user"))
  ∧ result_of (run failing (patchUser bob_new_password) 0)
    = Returned (Next (AppError INVALID_CREDENTIALS "Fail to patch user")).
Proof.
  intros failing.
  destruct (service_failures_reported failing alice)
    as (_ & _ & Hcreate & Hupdate & _).
  destruct (service_failures_reported failing bob_new_password)
    as (_ & Hget & _ & _ & Hdelete & Hpatch).
  split; [by rewrite (Hget 0 1 JNull) |].
  split; [by apply (Hcreate 0 1 2 (JBool false) (JBool false)) |].
  split; [by apply (Hupdate 0 1 2 (JBool false) (JBool false)) |].
  split; [by apply (Hdelete 0 1 (JBool false)) |].
  by apply (Hpatch 0 1 2 (JBool false) (JBool false)).
Defined.

(** C6: for every handler, request and service.  The handler ends in
    exactly one response or one [next]; when the request violates guards,
    the error passed to [next] is that of the first violated guard and no
    mutating call is made; a mutating call is made only when no guard is
    violated; and a mutating call, when there is one, is the last call the
    handler makes, after lookups only. *)
Theorem guards_before_mutation {W} (service : call → W → reply * W) (w : W)
    (h : handler) (req : request) :
  let x := run service (handle h req) w in
  (∃ o, result_of x = Returned o)
  ∧ (∀ e rest, guard_errors service w h req = e :: rest →
       result_of x = Returned (Next e) ∧ mutations_of x = [])
  ∧ (mutations_of x ≠ [] → guard_errors service w h req = [])
  ∧ (mutations_of x = []
     ∨ ∃ lookups c r, x.1.2 = lookups ++ [(c, r)]
         ∧ is_mutation c = true
         ∧ Forall (λ cr, is_mutation cr.1 = false) lookups).
Proof.
  intros x. split; [apply handle_returns |].
  subst x. unfold result_of, mutations_of, calls_of.
  destruct h; unfold handle, guard_errors, lookup_guard, own_guard;
    unfold_handlers; simpl.
  all: repeat (case_match; simplify_eq/=).
  all: split; [intros e rest Hfirst; simplify_eq; split; reflexivity |].
  all: split; [intros Hmut; first [reflexivity | exfalso; apply Hmut; reflexivity] |].
  all: first
    [ left; reflexivity
    | right; eexists [], _, _; by repeat split
    | right; eexists [_], _, _; split; [reflexivity |];
      split; [reflexivity | by repeat constructor] ].
Qed.

(** A request that violates two guards of [createUser] at once (the
    passwords differ and the email is taken): the first error wins and
    nothing is called. *)
Lemma guards_before_mutation_witness :
  let req := create_request (JStr "Bob") (JStr "bob@x.com") (JStr "secret1") (JStr "secret2") in
  guard_errors registry_service registry HCreateUser req
    = [AppError INVALID_PASSWORD "Passwords did not match";
       AppError EMAIL_ALREADY_TAKEN "Email already taken"]
  ∧ result_of (run registry_service (createUser req) registry)
    = Returned (Next (AppError INVALID_PASSWORD "Passwords did not match"))
  ∧ mutations_of (run registry_service (createUser req) registry) = [].
Proof.
  intros req. split; [reflexivity |].
  destruct (guards_before_mutation registry_service registry HCreateUser req)
    as (_ & Hfirst & _).
  apply (Hfirst _ [AppError EMAIL_ALREADY_TAKEN "Email already taken"]).
  reflexivity.
Defined.

(** A request that passes every guard of [patchUser]: the mutation is the
    last call. *)
Example patch_after_guards :
  guard_errors registry_service registry HPatchUser bob_new_password = []
  ∧ run registry_service (patchUser bob_new_password) registry
    = (Returned (Respond 200 (JObj [("id", JStr "bob@x.com")])),
       [(SCheckLoginCredential (JStr "bob@x.com") (JStr "abcdef"), Fulfilled (JBool false));
        (SPatchUser (JStr "bob@x.com") (JStr "abcdef") (JStr "ghijkl"), Fulfilled (JBool true))],
       [("bob@x.com", "ghijkl")]).
Proof. vm_compute. split; reflexivity. Qed.

(** *** The validation schemas *)

Section SchemaFacts.
Context (isEmail : string → bool).

Lemma eqb_empty_length s : String.eqb s "" = true ↔ String.length s = 0.
Proof. destruct s; simpl; split; intros; done. Qed.

(** [joi.string().min(lo).max(hi).required().label(l)] *)
Lemma validate_value_bounded lo hi l v :
  (1 ≤ lo)%nat →
  validate_value isEmail
    (joi.string .> joi.min lo .> joi.max hi .> joi.required .> joi.label l) v = None
  ↔ string_of_length lo hi v.
Proof.
  intros Hlo. unfold string_of_length.
  destruct v as [| | b | x | s | items | props]; simpl;
    try (split; [done | by intros (s' & ? & _)]).
  destruct (String.eqb s "") eqn:Hempty.
  - apply eqb_empty_length in Hempty.
    split; [done | intros (s' & [= <-] & ?); lia].
  - simpl. destruct (Nat.ltb_spec (String.length s) lo);
      [split; [done | intros (s' & [= <-] & ?); lia] |].
    destruct (Nat.ltb_spec hi (String.length s));
      [split; [done | intros (s' & [= <-] & ?); lia] |].
    split; [intros _; exists s; split; [done | lia] | done].
Qed.

(** [joi.string().email().required().label(l)] *)
Lemma validate_value_email l v :
  validate_value isEmail (joi.string .> joi.email .> joi.required .> joi.label l) v = None
  ↔ email_string isEmail v.
Proof.
  unfold email_string.
  destruct v as [| | b | x | s | items | props]; simpl;
    try (split; [done | by intros (s' & ? & _)]).
  destruct (String.eqb s "") eqn:Hempty.
  - apply String.eqb_eq in Hempty.
    split; [done | intros (s' & [= <-] & ? & _); done].
  - apply String.eqb_neq in Hempty. destruct (isEmail s) eqn:Hmail.
    + split; [intros _; by exists s | done].
    + split; [done | intros (s' & [= <-] & _ & ?); congruence].
Qed.

Lemma unknown_keys_nil keys obj :
  unknown_keys keys obj = [] ↔ ∀ k, is_Some (obj !! k) → k ∈ keys.*1.
Proof.
  unfold unknown_keys. split.
  - intros Hnil k Hk. destruct (decide (k ∈ keys.*1)) as [|Hout]; [done |].
    exfalso. eapply (filter_nil_not_elem_of _ _ k); [exact Hnil | exact Hout |].
    by apply elem_of_elements, elem_of_dom.
  - intros Hall. apply elem_of_nil_inv. intros k [Hout Hk]%list_elem_of_filter.
    apply Hout, Hall. by apply elem_of_dom, elem_of_elements.
Qed.

Lemma validate_accepts allowUnknown keys obj :
  validate isEmail allowUnknown keys obj = None
  ↔ validate_keys isEmail keys obj = None
    ∧ (allowUnknown = true ∨ ∀ k, is_Some (obj !! k) → k ∈ keys.*1).
Proof.
  unfold validate. destruct (validate_keys isEmail keys obj) as [err|];
    [split; [done | by intros [? _]] |].
  destruct allowUnknown; [split; [by auto | done] |].
  rewrite <- unknown_keys_nil. destruct (unknown_keys keys obj).
  - split; [by auto | done].
  - split; [done | by intros [_ [? | ?]]].
Qed.

Lemma validate_keys_cons key sch keys obj :
  validate_keys isEmail ((key, sch) :: keys) obj = None
  ↔ validate_value isEmail sch (prop obj key) = None
    ∧ validate_keys isEmail keys obj = None.
Proof.
  simpl. destruct (validate_value isEmail sch (prop obj key));
    [split; [done | by intros [? _]] | split; [by auto | by intros [_ ?]]].
Qed.
End SchemaFacts.

(** C7: what each schema accepts, for any email rule that only passes
    strings with an [@].  Create: [name] a string of 1 to 100 characters,
    [email] a string in email format, [password] and [confirmpassword]
    strings of 6 to 32 characters, all four required.  Update: [name] and
    [email] only.  Patch: the three password fields only.  Hence a name of
    more than 100 characters, an email without [@] and a password field of
    fewer than 6 or more than 32 characters are rejected; the verdict is a
    function of the body alone. *)
Theorem schemas_enforce (isEmail : string → bool) (allowUnknown : bool)
    (obj : gmap string jsval) :
  (∀ s, isEmail s = true → has_at s = true) →
  let accepted keys := validate isEmail allowUnknown keys obj = None in
  let declared keys :=
    allowUnknown = true ∨ ∀ k, is_Some (obj !! k) → k ∈ keys in
  (accepted usersValidator.createUser
   ↔ string_of_length 1 100 (prop obj "name")
     ∧ email_string isEmail (prop obj "email")
     ∧ string_of_length 6 32 (prop obj "password")
     ∧ string_of_length 6 32 (prop obj "confirmpassword")
     ∧ declared ["name"; "email"; "password"; "confirmpassword"])
  ∧ (accepted usersValidator.updateUser
     ↔ string_of_length 1 100 (prop obj "name")
       ∧ email_string isEmail (prop obj "email")
       ∧ declared ["name"; "email"])
  ∧ (accepted usersValidator.patchUser
     ↔ string_of_length 6 32 (prop obj "oldpassword")
       ∧ string_of_length 6 32 (prop obj "newpassword")
       ∧ string_of_length 6 32 (prop obj "confirmnewpassword")
       ∧ declared ["oldpassword"; "newpassword"; "confirmnewpassword"])
  ∧ (∀ s, prop obj "name" = JStr s → (100 < String.length s)%nat →
       ¬ accepted usersValidator.createUser ∧ ¬ accepted usersValidator.updateUser)
  ∧ (∀ s, prop obj "email" = JStr s → has_at s = false →
       ¬ accepted usersValidator.createUser ∧ ¬ accepted usersValidator.updateUser)
  ∧ (∀ key s, key ∈ ["password"; "confirmpassword"] → prop obj key = JStr s →
       (String.length s < 6 ∨ 32 < String.length s)%nat →
       ¬ accepted usersValidator.createUser)
  ∧ (∀ key s, key ∈ ["oldpassword"; "newpassword"; "confirmnewpassword"] →
       prop obj key = JStr s →
       (String.length s < 6 ∨ 32 < String.length s)%nat →
       ¬ accepted usersValidator.patchUser).
Proof.
  intros Hat accepted declared.
  assert (Hcreate : accepted usersValidator.createUser
    ↔ string_of_length 1 100 (prop obj "name")
      ∧ email_string isEmail (prop obj "email")
      ∧ string_of_length 6 32 (prop obj "password")
      ∧ string_of_length 6 32 (prop obj "confirmpassword")
      ∧ declared ["name"; "email"; "password"; "confirmpassword"]).
  { unfold accepted, usersValidator.createUser.
    rewrite validate_accepts, !validate_keys_cons, validate_value_email,
      !validate_value_bounded by lia.
    simpl. unfold declared. tauto. }
  assert (Hupdate : accepted usersValidator.updateUser
    ↔ string_of_length 1 100 (prop obj "name")
      ∧ email_string isEmail (prop obj "email")
      ∧ declared ["name"; "email"]).
  { unfold accepted, usersValidator.updateUser.
    rewrite validate_accepts, !validate_keys_cons, validate_value_email,
      !validate_value_bounded by lia.
    simpl. unfold declared. tauto. }
  assert (Hpatch : accepted usersValidator.patchUser
    ↔ string_of_length 6 32 (prop obj "oldpassword")
      ∧ string_of_length 6 32 (prop obj "newpassword")
      ∧ string_of_length 6 32 (prop obj "confirmnewpassword")
      ∧ declared ["oldpassword"; "newpassword"; "confirmnewpassword"]).
  { unfold accepted, usersValidator.patchUser.
    rewrite validate_accepts, !validate_keys_cons, !validate_value_bounded by lia.
    simpl. unfold declared. tauto. }
  split; [exact Hcreate |]. split; [exact Hupdate |]. split; [exact Hpatch |].
  split; [| split; [| split]].
  - intros s Hname Hlen.
    split; [rewrite Hcreate | rewrite Hupdate]; intros ((s' & Heq & ?) & _);
      rewrite Hname in Heq; simplify_eq; lia.
  - intros s Hmail Hno.
    split; [rewrite Hcreate | rewrite Hupdate];
      intros (_ & (s' & Heq & _ & Hok) & _);
      rewrite Hmail in Heq; simplify_eq; apply Hat in Hok; congruence.
  - intros key s Hkey Hval Hlen. rewrite Hcreate.
    intros (_ & _ & (s1 & H1 & ?) & (s2 & H2 & ?) & _).
    apply elem_of_cons in Hkey as [-> | Hkey];
      [| apply list_elem_of_singleton in Hkey as ->];
      rewrite Hval in *; simplify_eq; lia.
  - intros key s Hkey Hval Hlen. rewrite Hpatch.
    intros ((s1 & H1 & ?) & (s2 & H2 & ?) & (s3 & H3 & ?) & _).
    apply elem_of_cons in Hkey as [-> | Hkey];
      [| apply elem_of_cons in Hkey as [-> | Hkey];
         [| apply list_elem_of_singleton in Hkey as ->]];
      rewrite Hval in *; simplify_eq; lia.
Qed.

Lemma simple_email_has_at s : simple_email s = true → has_at s = true.
Proof. unfold simple_email. by intros [? _]%andb_prop. Qed.

Lemma schemas_enforce_witness :
  (∀ s, simple_email s = true → has_at s = true)
  ∧ (validate simple_email false usersValidator.updateUser (body alice) = None
     ↔ string_of_length 1 100 (prop (body alice) "name")
       ∧ email_string simple_email (prop (body alice) "email")
       ∧ (false = true ∨ ∀ k, is_Some (body alice !! k) → k ∈ ["name"; "email"])).
Proof.
  split; [exact simple_email_has_at |].
  apply (schemas_enforce simple_email false (body alice) simple_email_has_at).
Defined.

(** The schemas at work on sample bodies. *)
Example schemas_run :
  validate simple_email false usersValidator.createUser (body alice) = None
  ∧ is_Some (validate simple_email false usersValidator.updateUser (body alice))
  ∧ validate simple_email true usersValidator.updateUser (body alice) = None
  ∧ validate simple_email false usersValidator.createUser
      (body (create_request (JStr "Alice") (JStr "a.x.com") (JStr "secret1") (JStr "secret1")))
    = Some ("Email", joi.string_email)
  ∧ validate simple_email false usersValidator.createUser
      (body (create_request (JStr "Alice") (JStr "a@x.com") (JStr "12345") (JStr "12345")))
    = Some ("Password", joi.string_min 6)
  ∧ validate simple_email false usersValidator.patchUser
      (body (patch_request JNull (JStr "abcdef") (JNum (S754_zero false)) (JStr "abcdef")))
    = Some ("New Password", joi.string_base)
  ∧ validate simple_email false usersValidator.patchUser (body bob_new_password) = None
  ∧ validate simple_email false usersValidator.patchUser ∅
    = Some ("Old Password", joi.any_required).
Proof. vm_compute. repeat split. by eexists. Qed.

(** *** The success response of createUser *)

(** C8: when the guards of [createUser] pass and the create call resolves
    to a truthy value, the response is status 200 with the body
    [{name, email}] built from the request's [name] and [email]; every
    success response of [createUser] has this shape, so its body has no
    password property and two requests with the same [name] and [email]
    get the same success response whatever their password fields hold. *)
Theorem createUser_success_response {W} (service : call → W → reply * W) (req : request) :
  let b := body req in
  let reply_200 :=
    Respond 200 (JObj [("name", prop b "name"); ("email", prop b "email")]) in
  (∀ w w1 w2 emailExists success,
     strict_eq (prop b "confirmpassword") (prop b "password") = true →
     service (SCheckUserEmail (prop b "email")) w = (Fulfilled emailExists, w1) →
     truthy emailExists = false →
     service (SCreateUser (prop b "name") (prop b "email") (prop b "password")) w1
       = (Fulfilled success, w2) →
     truthy success = true →
     result_of (run service (createUser req) w) = Returned reply_200)
  ∧ (∀ w status json,
       result_of (run service (createUser req) w) = Returned (Respond status json) →
       Respond status json = reply_200)
  ∧ (∀ W' (service' : call → W' → reply * W') req' w w' status json status' json',
       prop (body req') "name" = prop b "name" →
       prop (body req') "email" = prop b "email" →
       result_of (run service (createUser req) w) = Returned (Respond status json) →
       result_of (run service' (createUser req') w') = Returned (Respond status' json') →
       Respond status json = Respond status' json').
Proof.
  intros b reply_200.
  assert (Hshape : ∀ {V} (svc : call → V → reply * V) r v status json,
    result_of (run svc (createUser r) v) = Returned (Respond status json) →
    Respond status json
    = Respond 200 (JObj [("name", prop (body r) "name"); ("email", prop (body r) "email")])).
  { intros V svc r v status json. unfold_handlers. unfold result_of. simpl.
    repeat (case_match; simplify_eq/=); by intros [= -> ->]. }
  split; [| split].
  - intros w w1 w2 ex ok Heq Hs1 Hex Hs2 Hok. unfold_handlers. fold b.
    rewrite Heq. simpl. rewrite Hs1. simpl. rewrite Hex. simpl.
    rewrite Hs2. simpl. rewrite Hok. reflexivity.
  - intros w status json. apply Hshape.
  - intros W' service' req' w w' status json status' json' Hname Hemail H1 H2.
    apply Hshape in H1, H2. rewrite H1, H2, Hname, Hemail. reflexivity.
Qed.

Lemma createUser_success_response_witness :
  result_of (run registry_service (createUser alice) registry)
  = Returned (Respond 200 (JObj [("name", JStr "Alice"); ("email", JStr "a@x.com")])).
Proof.
  destruct (createUser_success_response registry_service alice) as (Hok & _).
  by apply (Hok registry registry [("bob@x.com", "abcdef"); ("a@x.com", "secret1")]
              (JBool false) (JBool true)).
Defined.

(** *** The password fields of updateUser *)

Lemma strict_eq_undefined_r v : v ≠ JUndefined → strict_eq v JUndefined = false.
Proof. by destruct v. Qed.

Lemma strict_eq_undefined_l v : v ≠ JUndefined → strict_eq JUndefined v = false.
Proof. by destruct v. Qed.

Lemma updateUser_guard_passed {W} (service : call → W → reply * W) (w : W)
    (req : request) (message : string) :
  strict_eq (prop (body req) "confirmpassword") (prop (body req) "password") = true →
  result_of (run service (updateUser req) w)
    ≠ Returned (Next (AppError INVALID_PASSWORD message)).
Proof.
  intros Heq. unfold_handlers. rewrite Heq. unfold result_of. simpl.
  repeat (case_match; simplify_eq/=); done.
Qed.

(** C9: the update schema declares [name] and [email] only, yet
    [updateUser] compares [password] with [confirmpassword].  When both are
    absent the comparison passes: the handler goes on to the email lookup
    and never answers INVALID_PASSWORD.  So a body the update schema accepts
    as declared (no undeclared keys) is never rejected with
    INVALID_PASSWORD, while a body that supplies exactly one of the two
    fields is rejected with INVALID_PASSWORD before any service call. *)
Theorem updateUser_password_fields {W} (service : call → W → reply * W) (w : W)
    (req : request) :
  let b := body req in
  let mismatch := AppError INVALID_PASSWORD "Passwords did not match" in
  usersValidator.updateUser.*1 = ["name"; "email"]
  ∧ (absent b "password" → absent b "confirmpassword" →
       (∃ k, updateUser req = Await (SCheckUserEmail (prop b "email")) k)
       ∧ ∀ message, result_of (run service (updateUser req) w)
                    ≠ Returned (Next (AppError INVALID_PASSWORD message)))
  ∧ (∀ isEmail message,
       validate isEmail false usersValidator.updateUser b = None →
       result_of (run service (updateUser req) w)
         ≠ Returned (Next (AppError INVALID_PASSWORD message)))
  ∧ (supplied b "password" ∧ absent b "confirmpassword"
     ∨ absent b "password" ∧ supplied b "confirmpassword" →
       run service (updateUser req) w = (Returned (Next mismatch), [], w)).
Proof.
  intros b mismatch. unfold absent, supplied.
  split; [reflexivity |]. split; [| split].
  - intros Hp Hc. split.
    + unfold_handlers. fold b. rewrite Hp, Hc. simpl. eauto.
    + intros message. apply updateUser_guard_passed. fold b. by rewrite Hp, Hc.
  - intros isEmail message [_ [? | Hdeclared]]%validate_accepts; [done |].
    apply updateUser_guard_passed. fold b. unfold prop.
    destruct (b !! "password") as [p|] eqn:Hp.
    { assert (Hin : "password" ∈ ["name"; "email"]) by (by apply Hdeclared).
      by repeat apply elem_of_cons in Hin as [? | Hin]; try apply elem_of_nil in Hin. }
    destruct (b !! "confirmpassword") as [c|] eqn:Hc.
    { assert (Hin : "confirmpassword" ∈ ["name"; "email"]) by (by apply Hdeclared).
      by repeat apply elem_of_cons in Hin as [? | Hin]; try apply elem_of_nil in Hin. }
    reflexivity.
  - intros Hone. apply updateUser_password_mismatch.
    fold b. destruct Hone as [[Hp Hc] | [Hp Hc]].
    + rewrite Hc. by apply strict_eq_undefined_l.
    + rewrite Hp. by apply strict_eq_undefined_r.
Qed.

Example updateUser_without_passwords :
  let req := update_request (JStr "bob@x.com")
               [("name", JStr "Bob"); ("email", JStr "bob@y.com")] in
  validate simple_email false usersValidator.updateUser (body req) = None
  ∧ run registry_service (updateUser req) registry
    = (Returned (Respond 200 (JObj [("id", JStr "bob@x.com")])),
       [(SCheckUserEmail (JStr "bob@y.com"), Fulfilled (JBool false));
        (SUpdateUser (JStr "bob@x.com") (JStr "Bob") (JStr "bob@y.com"),
         Fulfilled (JBool true))],
       registry).
Proof. vm_compute. split; reflexivity. Qed.

Lemma updateUser_password_fields_witness :
  let req := update_request (JStr "bob@x.com")
               [("name", JStr "Bob"); ("email", JStr "bob@y.com");
                ("password", JStr "secret1")] in
  run registry_service (updateUser req) registry
  = (Returned (Next (AppError INVALID_PASSWORD "Passwords did not match")), [], registry).
Proof.
  intros req.
  destruct (updateUser_password_fields registry_service registry req)
    as (_ & _ & _ & Hone).
  apply Hone. left. split; [discriminate | reflexivity].
Defined.

(** *** The new password handed to the service *)

Lemma SFeqb_same x y :
  SFeqb x y = true →
  x = y ∨ ∃ s1 s2, x = S754_zero s1 ∧ y = S754_zero s2.
Proof.
  unfold SFeqb.
  destruct x as [s1 | s1 | | s1 m1 e1], y as [s2 | s2 | | s2 m2 e2]; simpl;
    try done; try (by destruct s1); try (by destruct s2).
  - intros _. right. eauto.
  - destruct s1, s2; try done; intros _; by left.
  - intros Hcmp. left.
    assert (s1 = s2 ∧ e1 = e2 ∧ m1 = m2) as (-> & -> & ->); [| done].
    destruct s1, s2; try done;
      destruct (Z.compare_spec e1 e2) as [-> | |]; try done;
      fold (Pos.compare m1 m2) in Hcmp;
      destruct (Pos.compare_spec m1 m2) as [-> | |]; done.
Qed.

Lemma strict_eq_same a b :
  strict_eq a b = true → opposite_zeros a b = false → a = b.
Proof.
  destruct a as [| | x | x | x | |], b as [| | y | y | y | |]; simpl; try done.
  - intros ->%Bool.eqb_prop. done.
  - intros [-> | (s1 & s2 & -> & ->)]%SFeqb_same; [done |].
    simpl. by destruct s1, s2.
  - intros ->%String.eqb_eq. done.
Qed.

Lemma patchUser_runs_agree {W} (service : call → W → reply * W) (w : W)
    (req : request) :
  (strict_eq (prop (body req) "newpassword") (prop (body req) "confirmnewpassword") = true →
   prop (body req) "newpassword" = prop (body req) "confirmnewpassword") →
  run service (patchUser req) w = run service (patchUser_passing_newpassword req) w.
Proof.
  intros Hsame. unfold_handlers. simpl.
  destruct (service _ w) as [[check | reason] w1]; simpl; [| done].
  destruct (truthy check); simpl; [done |].
  destruct (strict_eq _ (prop (body req) "confirmnewpassword")) eqn:Heq;
    simpl; [| done].
  by rewrite (Hsame eq_refl).
Qed.

(** Strict equality identifies no two values other than the two zeros, so
    the two handlers agree on every request whose [newpassword] and
    [confirmnewpassword] are not zeros of opposite sign. *)
Lemma patchUser_agrees_unless_zeros {W} (service : call → W → reply * W)
    (w : W) (req : request) :
  opposite_zeros (prop (body req) "newpassword")
                 (prop (body req) "confirmnewpassword") = false →
  run service (patchUser req) w = run service (patchUser_passing_newpassword req) w.
Proof.
  intros Hzeros. apply patchUser_runs_agree. intros Heq.
  by apply strict_eq_same.
Qed.

(** C10: for every request, the only mutating call [patchUser] makes is
    [usersService.patchUser(id, oldpassword, confirmnewpassword)], with
    [confirmnewpassword] and not [newpassword] as its third argument, and
    it is reached only when [newpassword === confirmnewpassword]; hence,
    for a request whose [newpassword] and [confirmnewpassword] are strings
    (as the data model has them and the patch schema enforces),
    [patchUser] runs exactly like the handler that hands over
    [newpassword]: same calls with the same arguments, same outcome, same
    final state, against every service. *)
Theorem patchUser_passes_confirmnewpassword {W} (service : call → W → reply * W)
    (w : W) (req : request) :
  let id := prop (params req) "id" in
  let b := body req in
  let x := run service (patchUser req) w in
  (∀ c, c ∈ mutations_of x →
     c = SPatchUser id (prop b "oldpassword") (prop b "confirmnewpassword")
     ∧ strict_eq (prop b "newpassword") (prop b "confirmnewpassword") = true)
  ∧ (∀ newpassword confirmnewpassword,
       prop b "newpassword" = JStr newpassword →
       prop b "confirmnewpassword" = JStr confirmnewpassword →
       x = run service (patchUser_passing_newpassword req) w).
Proof.
  intros id b x. subst x. split.
  - unfold mutations_of, calls_of. unfold_handlers. simpl. fold id b.
    destruct (service _ w) as [[check | r] w1]; simpl;
      [| intros c Hin; by apply elem_of_nil in Hin].
    destruct (truthy check); simpl; [intros c Hin; by apply elem_of_nil in Hin |].
    destruct (strict_eq (prop b "newpassword") _) eqn:Heq; simpl;
      [| intros c Hin; by apply elem_of_nil in Hin].
    destruct (strict_eq (prop b "oldpassword") _); simpl;
      [intros c Hin; by apply elem_of_nil in Hin |].
    repeat (case_match; simplify_eq/=);
      intros c Hin; apply list_elem_of_filter in Hin as [Hmut Hin];
      elem_cases Hin; done.
  - intros new confirm Hnew Hconfirm. apply patchUser_runs_agree.
    fold b. rewrite Hnew, Hconfirm. simpl. by intros ->%String.eqb_eq.
Qed.

Lemma patchUser_passes_confirmnewpassword_witness :
  mutations_of (run registry_service (patchUser bob_new_password) registry)
    = [SPatchUser (JStr "bob@x.com") (JStr "abcdef")
         (prop (body bob_new_password) "confirmnewpassword")]
  ∧ run registry_service (patchUser bob_new_password) registry
    = run registry_service (patchUser_passing_newpassword bob_new_password) registry.
Proof.
  split; [reflexivity |].
  destruct (patchUser_passes_confirmnewpassword registry_service registry
              bob_new_password) as [_ Hsame].
  apply (Hsame "ghijkl" "ghijkl"); reflexivity.
Defined.

(** Behind the patch schema the three fields are strings, so the two
    handlers agree on every request the schema lets through. *)
Corollary patchUser_behind_schema {W} (service : call → W → reply * W) (w : W)
    (req : request) (isEmail : string → bool) (allowUnknown : bool) :
  validate isEmail allowUnknown usersValidator.patchUser (body req) = None →
  run service (patchUser req) w = run service (patchUser_passing_newpassword req) w.
Proof.
  intros [Hkeys _]%validate_accepts. apply patchUser_runs_agree.
  unfold usersValidator.patchUser in Hkeys.
  rewrite !validate_keys_cons, !validate_value_bounded in Hkeys by lia.
  destruct Hkeys as (_ & (new & -> & _) & (confirm & -> & _) & _).
  simpl. by intros ->%String.eqb_eq.
Qed.

(** Which argument is handed over shows only on a body no schema lets
    through: with the numbers [0] and [-0] as [newpassword] and
    [confirmnewpassword] (the patch schema refuses both as not being
    strings), [patchUser] hands over the [-0] of [confirmnewpassword] where
    the other handler hands over the [0] of [newpassword]. *)
Example patchUser_argument_outside_schema :
  let req := patch_request (JStr "bob@x.com") (JStr "abcdef")
               (JNum (S754_zero false)) (JNum (S754_zero true)) in
  validate simple_email true usersValidator.patchUser (body req)
    = Some ("New Password", joi.string_base)
  ∧ mutations_of (run sign_sensitive_service (patchUser req) 0)
    = [SPatchUser (JStr "bob@x.com") (JStr "abcdef") (JNum (S754_zero true))]
  ∧ mutations_of (run sign_sensitive_service (patchUser_passing_newpassword req) 0)
    = [SPatchUser (JStr "bob@x.com") (JStr "abcdef") (JNum (S754_zero false))].
Proof. vm_compute. repeat split. Qed.

(** ** Further properties of the handlers *)

(** The calls a handler makes are always an initial part of its plan: what
    the service replies decides how far the handler goes, never which call
    comes next nor with which arguments. *)
Theorem calls_follow_plan {W} (service : call → W → reply * W) (w : W)
    (h : handler) (req : request) :
  calls_of (run service (handle h req) w) `prefix_of` call_plan h req.
Proof.
  destruct h; unfold handle, call_plan; split_run;
    first [ by eexists | by eexists [_] | by eexists [_; _] ].
Qed.

Lemma calls_follow_plan_witness :
  calls_of (run registry_service (handle HCreateUser bob_again) registry)
    = [SCheckUserEmail (JStr "bob@x.com")]
  ∧ calls_of (run registry_service (handle HCreateUser bob_again) registry)
      `prefix_of` call_plan HCreateUser bob_again.
Proof.
  split; [reflexivity |].
  apply (calls_follow_plan registry_service registry HCreateUser bob_again).
Defined.

(** A handler answers only at the end of its plan: every response has
    status 200, and by then the handler has made every call of its plan
    and each of them was fulfilled. *)
Theorem response_only_after_plan {W} (service : call → W → reply * W) (w : W)
    (h : handler) (req : request) (status : Z) (json : jsval) :
  let x := run service (handle h req) w in
  result_of x = Returned (Respond status json) →
  status = 200%Z
  ∧ calls_of x = call_plan h req
  ∧ Forall (λ cr, fulfilled cr.2) x.1.2.
Proof.
  intros x. subst x. unfold fulfilled.
  destruct h; unfold handle, call_plan; split_run; intros [= <- <-];
    (split; [done |]); (split; [done |]); repeat constructor; by eexists.
Qed.

Lemma response_only_after_plan_witness :
  result_of (run registry_service (handle HPatchUser bob_new_password) registry)
    = Returned (Respond 200 (JObj [("id", JStr "bob@x.com")]))
  ∧ calls_of (run registry_service (handle HPatchUser bob_new_password) registry)
    = call_plan HPatchUser bob_new_password.
Proof.
  split; [reflexivity |].
  apply (response_only_after_plan registry_service registry HPatchUser
           bob_new_password 200 (JObj [("id", JStr "bob@x.com")])).
  reflexivity.
Defined.

(** A rejected service call ends the handler at once: it is the last call
    made, and its rejection reason is what [next] receives. *)
Theorem rejection_passed_to_next {W} (service : call → W → reply * W) (w : W)
    (h : handler) (req : request) (c : call) (reason : jsval) :
  let x := run service (handle h req) w in
  (c, Rejected reason) ∈ x.1.2 →
  last x.1.2 = Some (c, Rejected reason)
  ∧ result_of x = Returned (Next (ServiceRejection reason)).
Proof.
  intros x. subst x.
  destruct h; unfold handle; split_run; intros Hin; elem_cases Hin; done.
Qed.

Lemma rejection_passed_to_next_witness :
  (SCreateUser (JStr "Carol") JNull (JStr "secret1"), Rejected (JStr "bad argument"))
    ∈ (run registry_service (handle HCreateUser nameless_email) registry).1.2
  ∧ result_of (run registry_service (handle HCreateUser nameless_email) registry)
    = Returned (Next (ServiceRejection (JStr "bad argument"))).
Proof.
  assert (Hin :
    (SCreateUser (JStr "Carol") JNull (JStr "secret1"), Rejected (JStr "bad argument"))
    ∈ (run registry_service (handle HCreateUser nameless_email) registry).1.2).
  { vm_compute. apply list_elem_of_further, list_elem_of_here. }
  split; [exact Hin |].
  apply (rejection_passed_to_next registry_service registry HCreateUser
           nameless_email _ _ Hin).
Defined.

(** The errors a handler builds itself are of the kinds its code names:
    no handler ever raises VALIDATION_ERROR, only [patchUser] raises
    INVALID_CREDENTIALS, and [getUsers] raises no error of its own. *)
Theorem errors_of_known_kinds {W} (service : call → W → reply * W) (w : W)
    (h : handler) (req : request) (kind : errorTypes) (message : string) :
  result_of (run service (handle h req) w) = Returned (Next (AppError kind message)) →
  kind ∈ error_kinds h
  ∧ kind ≠ VALIDATION_ERROR
  ∧ (kind = INVALID_CREDENTIALS → h = HPatchUser).
Proof.
  destruct h; unfold handle, error_kinds; split_run; intros [= <- <-];
    (split; [by repeat constructor | by split]).
Qed.

Lemma errors_of_known_kinds_witness :
  result_of (run registry_service (handle HPatchUser bob_same_password) registry)
    = Returned (Next (AppError UNPROCESSABLE_ENTITY
                        "Your new password cant be the same as the old one!"))
  ∧ UNPROCESSABLE_ENTITY ∈ error_kinds HPatchUser.
Proof.
  split; [reflexivity |].
  apply (errors_of_known_kinds registry_service registry HPatchUser bob_same_password
           UNPROCESSABLE_ENTITY "Your new password cant be the same as the old one!").
  reflexivity.
Defined.

(** A handler reads nothing but its own fields: [params.id] where it has
    one, and the body properties its code names.  Two requests that agree
    on those run identically against every service, so any other property
    in the body ([id], [role], ...) has no effect. *)
Theorem handlers_ignore_other_fields {W} (service : call → W → reply * W) (w : W)
    (h : handler) (r1 r2 : request) :
  same_reads h r1 r2 →
  run service (handle h r1) w = run service (handle h r2) w.
Proof.
  intros [Hparams Hbody].
  destruct h; unfold handle, params_read, body_read in *; unfold_handlers;
    repeat match goal with
      | H : Forall _ (_ :: _) |- _ => apply Forall_cons in H as [? H]
      | H : prop _ _ = prop _ _ |- _ => rewrite H; clear H
      end;
    reflexivity.
Qed.

Lemma handlers_ignore_other_fields_witness :
  same_reads HCreateUser alice_as_admin alice
  ∧ run registry_service (handle HCreateUser alice_as_admin) registry
    = run registry_service (handle HCreateUser alice) registry.
Proof.
  assert (Hsame : same_reads HCreateUser alice_as_admin alice).
  { split; [constructor |]. repeat constructor. }
  split; [exact Hsame |].
  apply (handlers_ignore_other_fields registry_service registry HCreateUser
           alice_as_admin alice Hsame).
Defined.

(** [updateUser] compares the two password fields and then drops them: two
    update requests with the same [id], [name] and [email] whose password
    fields each match run identically, whatever the passwords are.  No
    update can change or leak a password. *)
Theorem updateUser_drops_passwords {W} (service : call → W → reply * W) (w : W)
    (r1 r2 : request) :
  prop (params r1) "id" = prop (params r2) "id" →
  prop (body r1) "name" = prop (body r2) "name" →
  prop (body r1) "email" = prop (body r2) "email" →
  strict_eq (prop (body r1) "confirmpassword") (prop (body r1) "password") = true →
  strict_eq (prop (body r2) "confirmpassword") (prop (body r2) "password") = true →
  run service (updateUser r1) w = run service (updateUser r2) w.
Proof.
  intros Hid Hname Hemail H1 H2. unfold_handlers.
  by rewrite H1, H2, Hid, Hname, Hemail.
Qed.

Lemma updateUser_drops_passwords_witness :
  run registry_service (updateUser (bob_renamed "secret1")) registry
  = run registry_service (updateUser (bob_renamed "hunter22")) registry.
Proof.
  apply (updateUser_drops_passwords registry_service registry
           (bob_renamed "secret1") (bob_renamed "hunter22")); reflexivity.
Defined.

(** [patchUser] answers 200 with [{id}] exactly when the credential check
    is fulfilled with a falsy value, [newpassword] strictly equals
    [confirmnewpassword] and differs from [oldpassword], and the patch call
    made next is fulfilled with a truthy value. *)
Theorem patchUser_succeeds_iff {W} (service : call → W → reply * W) (w : W)
    (req : request) :
  let id := prop (params req) "id" in
  let b := body req in
  let passes check w1 checking w2 :=
    service (SCheckLoginCredential id (prop b "oldpassword")) w = (Fulfilled check, w1)
    ∧ truthy check = false
    ∧ strict_eq (prop b "newpassword") (prop b "confirmnewpassword") = true
    ∧ strict_eq (prop b "oldpassword") (prop b "newpassword") = false
    ∧ service (SPatchUser id (prop b "oldpassword") (prop b "confirmnewpassword")) w1
      = (Fulfilled checking, w2)
    ∧ truthy checking = true in
  ((∃ status json,
      result_of (run service (patchUser req) w) = Returned (Respond status json))
   ↔ ∃ check w1 checking w2, passes check w1 checking w2)
  ∧ (∀ check w1 checking w2,
       passes check w1 checking w2 →
       run service (patchUser req) w
       = (Returned (Respond 200 (JObj [("id", id)])),
          [(SCheckLoginCredential id (prop b "oldpassword"), Fulfilled check);
           (SPatchUser id (prop b "oldpassword") (prop b "confirmnewpassword"),
            Fulfilled checking)], w2)).
Proof.
  intros id b passes.
  assert (Hrun : ∀ check w1 checking w2,
    passes check w1 checking w2 →
    run service (patchUser req) w
    = (Returned (Respond 200 (JObj [("id", id)])),
       [(SCheckLoginCredential id (prop b "oldpassword"), Fulfilled check);
        (SPatchUser id (prop b "oldpassword") (prop b "confirmnewpassword"),
         Fulfilled checking)], w2)).
  { intros check w1 checking w2 (Hs1 & Hcheck & Heq & Hold & Hs2 & Hok).
    unfold_handlers. simpl. fold id b. rewrite Hs1. simpl. rewrite Hcheck. simpl.
    rewrite Heq. simpl. rewrite Hold. simpl. rewrite Hs2. simpl.
    rewrite Hok. reflexivity. }
  split; [| exact Hrun]. split.
  - intros (status & json & Hres). revert Hres.
    unfold result_of. unfold_handlers. simpl. fold id b.
    destruct (service (SCheckLoginCredential _ _) w) as [[check | r] w1] eqn:Hs1;
      simpl; [| done].
    destruct (truthy check) eqn:Hcheck; simpl; [done |].
    destruct (strict_eq (prop b "newpassword") _) eqn:Heq; simpl; [| done].
    destruct (strict_eq (prop b "oldpassword") _) eqn:Hold; simpl; [done |].
    destruct (service (SPatchUser _ _ _) w1) as [[checking | r] w2] eqn:Hs2;
      simpl; [| done].
    destruct (truthy checking) eqn:Hok; simpl; [| done].
    intros _. by exists check, w1, checking, w2.
  - intros (check & w1 & checking & w2 & Hpass).
    rewrite (Hrun _ _ _ _ Hpass). by eexists _, _.
Qed.

Lemma patchUser_succeeds_iff_witness :
  run registry_service (patchUser bob_new_password) registry
  = (Returned (Respond 200 (JObj [("id", JStr "bob@x.com")])),
     [(SCheckLoginCredential (JStr "bob@x.com") (JStr "abcdef"), Fulfilled (JBool false));
      (SPatchUser (JStr "bob@x.com") (JStr "abcdef") (JStr "ghijkl"),
       Fulfilled (JBool true))],
     [("bob@x.com", "ghijkl")]).
Proof.
  destruct (patchUser_succeeds_iff registry_service registry bob_new_password)
    as [_ Hrun].
  apply (Hrun (JBool false) registry (JBool true)). repeat split.
Defined.

(** [updateUser] answers 200 with [{id}] exactly when the password fields
    strictly match, the email lookup is fulfilled with a falsy value and the
    update call made next is fulfilled with a truthy value; the update call
    carries [id], [name] and [email] only. *)
Theorem updateUser_succeeds_iff {W} (service : call → W → reply * W) (w : W)
    (req : request) :
  let id := prop (params req) "id" in
  let b := body req in
  let passes emailExists w1 success w2 :=
    strict_eq (prop b "confirmpassword") (prop b "password") = true
    ∧ service (SCheckUserEmail (prop b "email")) w = (Fulfilled emailExists, w1)
    ∧ truthy emailExists = false
    ∧ service (SUpdateUser id (prop b "name") (prop b "email")) w1
      = (Fulfilled success, w2)
    ∧ truthy success = true in
  ((∃ status json,
      result_of (run service (updateUser req) w) = Returned (Respond status json))
   ↔ ∃ emailExists w1 success w2, passes emailExists w1 success w2)
  ∧ (∀ emailExists w1 success w2,
       passes emailExists w1 success w2 →
       run service (updateUser req) w
       = (Returned (Respond 200 (JObj [("id", id)])),
          [(SCheckUserEmail (prop b "email"), Fulfilled emailExists);
           (SUpdateUser id (prop b "name") (prop b "email"), Fulfilled success)], w2)).
Proof.
  intros id b passes.
  assert (Hrun : ∀ emailExists w1 success w2,
    passes emailExists w1 success w2 →
    run service (updateUser req) w
    = (Returned (Respond 200 (JObj [("id", id)])),
       [(SCheckUserEmail (prop b "email"), Fulfilled emailExists);
        (SUpdateUser id (prop b "name") (prop b "email"), Fulfilled success)], w2)).
  { intros ex w1 ok w2 (Heq & Hs1 & Hex & Hs2 & Hok).
    unfold_handlers. fold id b. rewrite Heq. simpl. rewrite Hs1. simpl.
    rewrite Hex. simpl. rewrite Hs2. simpl. rewrite Hok. reflexivity. }
  split; [| exact Hrun]. split.
  - intros (status & json & Hres). revert Hres.
    unfold result_of. unfold_handlers. fold id b.
    destruct (strict_eq _ (prop b "password")) eqn:Heq; simpl; [| done].
    destruct (service (SCheckUserEmail _) w) as [[ex | r] w1] eqn:Hs1;
      simpl; [| done].
    destruct (truthy ex) eqn:Hex; simpl; [done |].
    destruct (service (SUpdateUser _ _ _) w1) as [[ok | r] w2] eqn:Hs2;
      simpl; [| done].
    destruct (truthy ok) eqn:Hok; simpl; [| done].
    intros _. by exists ex, w1, ok, w2.
  - intros (ex & w1 & ok & w2 & Hpass).
    rewrite (Hrun _ _ _ _ Hpass). by eexists _, _.
Qed.

Lemma updateUser_succeeds_iff_witness :
  run registry_service (updateUser (bob_renamed "secret1")) registry
  = (Returned (Respond 200 (JObj [("id", JStr "bob@x.com")])),
     [(SCheckUserEmail (JStr "bob@y.com"), Fulfilled (JBool false));
      (SUpdateUser (JStr "bob@x.com") (JStr "Robert") (JStr "bob@y.com"),
       Fulfilled (JBool true))],
     registry).
Proof.
  destruct (updateUser_succeeds_iff registry_service registry (bob_renamed "secret1"))
    as [_ Hrun].
  apply (Hrun (JBool false) registry (JBool true)). repeat split.
Defined.

(** [deleteUser] makes its one call whatever the request holds, and answers
    200 with [{id}] exactly when that call is fulfilled with a truthy
    value. *)
Theorem deleteUser_succeeds_iff {W} (service : call → W → reply * W) (w : W)
    (req : request) (status : Z) (json : jsval) :
  let id := prop (params req) "id" in
  calls_of (run service (deleteUser req) w) = [SDeleteUser id]
  ∧ (result_of (run service (deleteUser req) w) = Returned (Respond status json)
     ↔ status = 200%Z ∧ json = JObj [("id", id)]
       ∧ ∃ success, (service (SDeleteUser id) w).1 = Fulfilled success
                    ∧ truthy success = true).
Proof.
  intros id. unfold result_of, calls_of. unfold_handlers. simpl. fold id.
  destruct (service (SDeleteUser id) w) as [[ok | r] w1]; simpl.
  - destruct (truthy ok) eqn:Hok; simpl; (split; [done |]); split.
    + intros [= <- <-]. eauto.
    + by intros (-> & -> & _).
    + done.
    + intros (_ & _ & ok' & [= <-] & ?). congruence.
  - split; [done |]. split; [done | by intros (_ & _ & ? & ? & _)].
Qed.

(** [getUsers] hands on whatever the service resolves with, falsy values
    included, while [getUser] hands on a record only when it is truthy;
    neither alters the value. *)
Theorem lookups_pass_through {W} (service : call → W → reply * W) (w : W)
    (req : request) (status : Z) (json : jsval) :
  let id := prop (params req) "id" in
  (result_of (run service (getUsers req) w) = Returned (Respond status json)
   ↔ status = 200%Z ∧ (service SGetUsers w).1 = Fulfilled json)
  ∧ (result_of (run service (getUser req) w) = Returned (Respond status json)
     ↔ status = 200%Z ∧ (service (SGetUser id) w).1 = Fulfilled json
       ∧ truthy json = true).
Proof.
  intros id. unfold result_of. unfold_handlers. simpl. fold id. split.
  - destruct (service SGetUsers w) as [[users | r] w1]; simpl.
    + split; [by intros [= <- <-] | by intros (-> & [= ->])].
    + split; [done | by intros (_ & ?)].
  - destruct (service (SGetUser id) w) as [[user | r] w1]; simpl.
    + destruct (truthy user) eqn:Huser; simpl.
      * split; [by intros [= <- <-] | by intros (-> & [= ->] & _)].
      * split; [done | intros (_ & [= ->] & ?); congruence].
    + split; [done | by intros (_ & ? & _)].
Qed.

Lemma deleteUser_succeeds_iff_witness :
  result_of (run registry_service (deleteUser bob_new_password) registry)
  = Returned (Respond 200 (JObj [("id", JStr "bob@x.com")])).
Proof.
  destruct (deleteUser_succeeds_iff registry_service registry bob_new_password
              200 (JObj [("id", JStr "bob@x.com")])) as [_ [_ Hok]].
  apply Hok. repeat split. by exists (JBool true).
Defined.

Lemma lookups_pass_through_witness :
  result_of (run (fixed_service JNull JNull JNull JNull) (getUsers alice) 0)
    = Returned (Respond 200 JNull)
  ∧ result_of (run (fixed_service JNull JNull JNull JNull) (getUser alice) 0)
    ≠ Returned (Respond 200 JNull).
Proof.
  destruct (lookups_pass_through (fixed_service JNull JNull JNull JNull) 0 alice
              200 JNull) as [[_ Hall] [Hone _]].
  split; [by apply Hall |].
  intros Hres. apply Hone in Hres as (_ & _ & Htruthy). discriminate Htruthy.
Defined.

(** ** The handlers behind their schemas *)

Lemma createUser_accepted_fields isEmail allowUnknown obj :
  validate isEmail allowUnknown usersValidator.createUser obj = None →
  ∃ name email password confirmpassword,
    prop obj "name" = JStr name ∧ prop obj "email" = JStr email
    ∧ prop obj "password" = JStr password
    ∧ prop obj "confirmpassword" = JStr confirmpassword
    ∧ (1 ≤ String.length name ≤ 100)%nat ∧ isEmail email = true
    ∧ (6 ≤ String.length password ≤ 32)%nat
    ∧ (6 ≤ String.length confirmpassword ≤ 32)%nat.
Proof.
  intros [Hkeys _]%validate_accepts. unfold usersValidator.createUser in Hkeys.
  rewrite !validate_keys_cons, validate_value_email,
    !validate_value_bounded in Hkeys by lia.
  destruct Hkeys as ((n & ? & ?) & (e & ? & _ & ?) & (p & ? & ?) & (c & ? & ?) & _).
  by exists n, e, p, c.
Qed.

Lemma patchUser_accepted_fields isEmail allowUnknown obj :
  validate isEmail allowUnknown usersValidator.patchUser obj = None →
  ∃ oldpassword newpassword confirmnewpassword,
    prop obj "oldpassword" = JStr oldpassword
    ∧ prop obj "newpassword" = JStr newpassword
    ∧ prop obj "confirmnewpassword" = JStr confirmnewpassword
    ∧ (6 ≤ String.length oldpassword ≤ 32)%nat
    ∧ (6 ≤ String.length newpassword ≤ 32)%nat
    ∧ (6 ≤ String.length confirmnewpassword ≤ 32)%nat.
Proof.
  intros [Hkeys _]%validate_accepts. unfold usersValidator.patchUser in Hkeys.
  rewrite !validate_keys_cons, !validate_value_bounded in Hkeys by lia.
  destruct Hkeys as ((o & ? & ?) & (n & ? & ?) & (c & ? & ?) & _).
  by exists o, n, c.
Qed.

(** Behind the create schema, [createUser] answers "Passwords did not
    match" exactly when the two password fields are different strings, and
    the only mutation it can ask for is the creation of a user whose name,
    email and password are the validated ones (name of 1 to 100 characters,
    email in email format, password of 6 to 32 characters equal to its
    confirmation). *)
Theorem createUser_behind_schema {W} (service : call → W → reply * W) (w : W)
    (req : request) (isEmail : string → bool) (allowUnknown : bool) :
  let b := body req in
  let x := run service (createUser req) w in
  validate isEmail allowUnknown usersValidator.createUser b = None →
  (result_of x = Returned (Next (AppError INVALID_PASSWORD "Passwords did not match"))
   ↔ prop b "password" ≠ prop b "confirmpassword")
  ∧ ∀ c, c ∈ mutations_of x →
      ∃ name email password,
        c = SCreateUser (JStr name) (JStr email) (JStr password)
        ∧ (1 ≤ String.length name ≤ 100)%nat ∧ isEmail email = true
        ∧ (6 ≤ String.length password ≤ 32)%nat
        ∧ prop b "confirmpassword" = JStr password.
Proof.
  intros b x (n & e & p & c & Hn & He & Hp & Hc & ? & ? & ? & ?)%createUser_accepted_fields.
  subst x. unfold result_of, mutations_of, calls_of. unfold_handlers. fold b.
  rewrite Hn, He, Hp, Hc. simpl.
  destruct (String.eqb_spec c p) as [-> | Hne]; simpl.
  - repeat (case_match; simplify_eq/=);
      (split; [split; [done | by intros []] |]);
      intros call Hin; apply list_elem_of_filter in Hin as [Hmut Hin];
      elem_cases Hin; by exists n, e, p.
  - split; [split; [intros _; congruence | done] |].
    intros call Hin. by apply elem_of_nil in Hin.
Qed.

Lemma createUser_behind_schema_witness :
  validate simple_email false usersValidator.createUser (body alice) = None
  ∧ ∀ c, c ∈ mutations_of (run registry_service (createUser alice) registry) →
      ∃ name email password,
        c = SCreateUser (JStr name) (JStr email) (JStr password)
        ∧ (1 ≤ String.length name ≤ 100)%nat ∧ simple_email email = true
        ∧ (6 ≤ String.length password ≤ 32)%nat
        ∧ prop (body alice) "confirmpassword" = JStr password.
Proof.
  split; [reflexivity |].
  apply (createUser_behind_schema registry_service registry alice simple_email false).
  reflexivity.
Defined.

(** Behind the patch schema, the only mutation [patchUser] can ask for is
    a password patch from one string of 6 to 32 characters to a different
    string of 6 to 32 characters, which is both the [newpassword] and the
    [confirmnewpassword] of the request. *)
Theorem patchUser_patches_validated_password {W} (service : call → W → reply * W)
    (w : W) (req : request) (isEmail : string → bool) (allowUnknown : bool) :
  let b := body req in
  validate isEmail allowUnknown usersValidator.patchUser b = None →
  ∀ c, c ∈ mutations_of (run service (patchUser req) w) →
    ∃ oldpassword newpassword,
      c = SPatchUser (prop (params req) "id") (JStr oldpassword) (JStr newpassword)
      ∧ oldpassword ≠ newpassword
      ∧ (6 ≤ String.length oldpassword ≤ 32)%nat
      ∧ (6 ≤ String.length newpassword ≤ 32)%nat
      ∧ prop b "oldpassword" = JStr oldpassword
      ∧ prop b "newpassword" = JStr newpassword
      ∧ prop b "confirmnewpassword" = JStr newpassword.
Proof.
  intros b (o & n & c & Ho & Hn & Hc & ? & ? & ?)%patchUser_accepted_fields.
  unfold mutations_of, calls_of. unfold_handlers. fold b.
  rewrite Ho, Hn, Hc. simpl.
  destruct (service _ w) as [[check | r] w1]; simpl;
    [| intros call Hin; by apply elem_of_nil in Hin].
  destruct (truthy check); simpl; [intros call Hin; by apply elem_of_nil in Hin |].
  destruct (String.eqb_spec n c) as [<- | Hne]; simpl;
    [| intros call Hin; by apply elem_of_nil in Hin].
  destruct (String.eqb_spec o n) as [<- | Hold]; simpl;
    [intros call Hin; by apply elem_of_nil in Hin |].
  repeat (case_match; simplify_eq/=);
    intros call Hin; apply list_elem_of_filter in Hin as [Hmut Hin];
    elem_cases Hin; by exists o, n.
Qed.

Lemma patchUser_patches_validated_password_witness :
  validate simple_email false usersValidator.patchUser (body bob_new_password) = None
  ∧ mutations_of (run registry_service (patchUser bob_new_password) registry)
    = [SPatchUser (JStr "bob@x.com") (JStr "abcdef") (JStr "ghijkl")]
  ∧ ∃ oldpassword newpassword,
      SPatchUser (JStr "bob@x.com") (JStr "abcdef") (JStr "ghijkl")
      = SPatchUser (prop (params bob_new_password) "id")
          (JStr oldpassword) (JStr newpassword)
      ∧ oldpassword ≠ newpassword
      ∧ (6 ≤ String.length oldpassword ≤ 32)%nat
      ∧ (6 ≤ String.length newpassword ≤ 32)%nat
      ∧ prop (body bob_new_password) "oldpassword" = JStr oldpassword
      ∧ prop (body bob_new_password) "newpassword" = JStr newpassword
      ∧ prop (body bob_new_password) "confirmnewpassword" = JStr newpassword.
Proof.
  split; [reflexivity |]. split; [reflexivity |].
  apply (patchUser_patches_validated_password registry_service registry
           bob_new_password simple_email false); [reflexivity |].
  vm_compute. apply list_elem_of_here.
Defined.

Lemma prop_insert_eq obj key v : prop (<[key := v]> obj) key = v.
Proof. unfold prop. by rewrite lookup_insert_eq. Qed.

Lemma prop_insert_ne obj key key' v :
  key ≠ key' → prop (<[key := v]> obj) key' = prop obj key'.
Proof. intros Hne. unfold prop. by rewrite lookup_insert_ne. Qed.

(** The create schema looks at each field on its own and never compares
    [password] with [confirmpassword]: changing the confirmation of an
    accepted body to any other string of 6 to 32 characters leaves it
    accepted, and it is then [createUser] that turns it down, before any
    service call. *)
Theorem schema_leaves_match_to_handler {W} (service : call → W → reply * W) (w : W)
    (req : request) (isEmail : string → bool) (allowUnknown : bool) (other : string) :
  let changed := <["confirmpassword" := JStr other]> (body req) in
  validate isEmail allowUnknown usersValidator.createUser (body req) = None →
  (6 ≤ String.length other ≤ 32)%nat →
  prop (body req) "password" ≠ JStr other →
  validate isEmail allowUnknown usersValidator.createUser changed = None
  ∧ run service (createUser (Request (params req) changed)) w
    = (Returned (Next (AppError INVALID_PASSWORD "Passwords did not match")), [], w).
Proof.
  intros changed Hok Hlen Hne.
  destruct (createUser_accepted_fields _ _ _ Hok)
    as (n & e & p & c & Hn & He & Hp & Hc & ? & ? & ? & ?).
  apply validate_accepts in Hok as [Hkeys Hdecl]. split.
  - apply validate_accepts. split.
    + unfold usersValidator.createUser in *.
      rewrite !validate_keys_cons in *. unfold changed.
      rewrite !prop_insert_ne by done. rewrite prop_insert_eq.
      destruct Hkeys as (? & ? & ? & _ & ?).
      repeat split; try done.
      apply validate_value_bounded; [lia |]. by exists other.
    + destruct Hdecl as [? | Hdecl]; [by left | right].
      intros k. unfold changed.
      destruct (decide ("confirmpassword" = k)) as [<- | Hk].
      * intros _. simpl. repeat constructor.
      * rewrite lookup_insert_ne by done. apply Hdecl.
  - unfold_handlers. cbn [body params]. unfold changed.
    rewrite prop_insert_eq, !prop_insert_ne by done. rewrite Hp in *. simpl.
    destruct (String.eqb_spec other p) as [-> | Hdiff]; [done | reflexivity].
Qed.

Lemma schema_leaves_match_to_handler_witness :
  validate simple_email false usersValidator.createUser
    (<["confirmpassword" := JStr "secret2"]> (body alice)) = None
  ∧ run registry_service
      (createUser (Request (params alice)
                     (<["confirmpassword" := JStr "secret2"]> (body alice)))) registry
    = (Returned (Next (AppError INVALID_PASSWORD "Passwords did not match")), [], registry).
Proof.
  apply (schema_leaves_match_to_handler registry_service registry alice
           simple_email false "secret2"); [reflexivity | simpl; lia | discriminate].
Defined.

(** A body the create schema accepts also meets the field rules of the
    update schema, yet without [allowUnknown] the update schema turns it
    down for one of its two password keys, which it does not declare. *)
Theorem create_body_on_update_schema (isEmail : string → bool)
    (obj : gmap string jsval) :
  validate isEmail false usersValidator.createUser obj = None →
  validate isEmail true usersValidator.updateUser obj = None
  ∧ ∃ key, validate isEmail false usersValidator.updateUser obj
           = Some (key, joi.object_unknown)
           ∧ key ∈ ["password"; "confirmpassword"].
Proof.
  intros Hok.
  destruct (createUser_accepted_fields _ _ _ Hok)
    as (n & e & p & c & Hn & He & Hp & Hc & ? & Hmail & ? & ?).
  apply validate_accepts in Hok as [Hkeys [? | Hdecl]]; [done |].
  assert (Hfields : validate_keys isEmail usersValidator.updateUser obj = None).
  { unfold usersValidator.createUser, usersValidator.updateUser in *.
    rewrite !validate_keys_cons in *. tauto. }
  split; [apply validate_accepts; by auto |].
  unfold validate. rewrite Hfields.
  destruct (unknown_keys usersValidator.updateUser obj) as [| key rest] eqn:Hunknown.
  - exfalso. rewrite unknown_keys_nil in Hunknown.
    assert (Hin : "password" ∈ usersValidator.updateUser.*1).
    { apply Hunknown. unfold prop in Hp. destruct (obj !! "password"); by eauto. }
    simpl in Hin. elem_cases Hin.
  - exists key. split; [done |].
    assert (Hkey : key ∈ unknown_keys usersValidator.updateUser obj)
      by (rewrite Hunknown; apply list_elem_of_here).
    unfold unknown_keys in Hkey.
    apply list_elem_of_filter in Hkey as [Hout Hdom].
    apply elem_of_elements, elem_of_dom in Hdom.
    specialize (Hdecl key Hdom). simpl in Hdecl, Hout.
    apply elem_of_cons in Hdecl as [-> | Hdecl];
      [exfalso; apply Hout; repeat constructor |].
    apply elem_of_cons in Hdecl as [-> | Hdecl];
      [exfalso; apply Hout; repeat constructor |].
    exact Hdecl.
Qed.

Lemma create_body_on_update_schema_witness :
  validate simple_email false usersValidator.createUser (body alice) = None
  ∧ validate simple_email true usersValidator.updateUser (body alice) = None
  ∧ ∃ key, validate simple_email false usersValidator.updateUser (body alice)
           = Some (key, joi.object_unknown)
           ∧ key ∈ ["password"; "confirmpassword"].
Proof.
  split; [reflexivity |].
  apply (create_body_on_update_schema simple_email (body alice)). reflexivity.
Defined.

(** ** The handlers on bodies no schema has checked *)

(** The password guards compare, they do not require: with both password
    fields missing [createUser] goes on and, once the email lookup lets it,
    asks the service to create a user with an undefined password; with the
    three fields of [patchUser] missing, the request fails as "new password
    same as the old one" once the credential check lets it through. *)
Theorem missing_passwords_reach_service {W} (service : call → W → reply * W)
    (w w1 : W) (req : request) (answer : jsval) :
  let b := body req in
  let id := prop (params req) "id" in
  truthy answer = false →
  (absent b "password" → absent b "confirmpassword" →
   service (SCheckUserEmail (prop b "email")) w = (Fulfilled answer, w1) →
   calls_of (run service (createUser req) w)
   = [SCheckUserEmail (prop b "email");
      SCreateUser (prop b "name") (prop b "email") JUndefined])
  ∧ (absent b "oldpassword" → absent b "newpassword" →
     absent b "confirmnewpassword" →
     service (SCheckLoginCredential id JUndefined) w = (Fulfilled answer, w1) →
     run service (patchUser req) w
     = (Returned (Next (AppError UNPROCESSABLE_ENTITY
                          "Your new password cant be the same as the old one!")),
        [(SCheckLoginCredential id JUndefined, Fulfilled answer)], w1)).
Proof.
  intros b id Hfalsy. unfold absent. split.
  - intros Hp Hc Hs. unfold calls_of. unfold_handlers. fold b.
    rewrite Hp, Hc. simpl. rewrite Hs. simpl. rewrite Hfalsy. simpl.
    by repeat (case_match; simplify_eq/=).
  - intros Ho Hn Hc Hs. unfold_handlers. simpl. fold b id.
    rewrite Ho, Hn, Hc, Hs. simpl. rewrite Hfalsy. reflexivity.
Qed.

Lemma missing_passwords_reach_service_witness :
  calls_of (run registry_service
              (createUser (Request ∅ {["email" := JStr "c@x.com"]})) registry)
  = [SCheckUserEmail (JStr "c@x.com");
     SCreateUser JUndefined (JStr "c@x.com") JUndefined].
Proof.
  destruct (missing_passwords_reach_service registry_service registry registry
              (Request ∅ {["email" := JStr "c@x.com"]}) (JBool false) eq_refl)
    as [Hcreate _].
  apply Hcreate; reflexivity.
Defined.

(** ** Which field a schema reports *)

(** When the create schema turns a body down for a declared field, the
    error carries the label of the first field, in the order name, email,
    password, confirmation, whose value breaks its rules. *)
Theorem first_offending_field_reported (isEmail : string → bool)
    (allowUnknown : bool) (obj : gmap string jsval) (label : string)
    (v : joi.violation) :
  let name_ok := string_of_length 1 100 (prop obj "name") in
  let email_ok := email_string isEmail (prop obj "email") in
  let password_ok := string_of_length 6 32 (prop obj "password") in
  let confirm_ok := string_of_length 6 32 (prop obj "confirmpassword") in
  validate isEmail allowUnknown usersValidator.createUser obj = Some (label, v) →
  v ≠ joi.object_unknown →
  label = "Name" ∧ ¬ name_ok
  ∨ label = "Email" ∧ name_ok ∧ ¬ email_ok
  ∨ label = "Password" ∧ name_ok ∧ email_ok ∧ ¬ password_ok
  ∨ label = "Confirm Password" ∧ name_ok ∧ email_ok ∧ password_ok ∧ ¬ confirm_ok.
Proof.
  intros name_ok email_ok password_ok confirm_ok Herr Hknown.
  unfold validate, usersValidator.createUser in Herr. simpl in Herr.
  pose proof (validate_value_bounded isEmail 1 100 "Name" (prop obj "name")) as Hn.
  pose proof (validate_value_email isEmail "Email" (prop obj "email")) as He.
  pose proof (validate_value_bounded isEmail 6 32 "Password" (prop obj "password"))
    as Hp.
  pose proof (validate_value_bounded isEmail 6 32 "Confirm Password"
                (prop obj "confirmpassword")) as Hc.
  fold name_ok email_ok password_ok confirm_ok in Hn, He, Hp, Hc.
  destruct (validate_value isEmail _ (prop obj "name")) as [vn |].
  { left. simplify_eq. split; [done |]. intros Hok. by apply Hn in Hok; [| lia]. }
  destruct (validate_value isEmail _ (prop obj "email")) as [ve |].
  { right; left. simplify_eq. split; [done |]. split; [apply Hn; [lia | done] |].
    intros Hok. by apply He in Hok. }
  destruct (validate_value isEmail _ (prop obj "password")) as [vp |].
  { right; right; left. simplify_eq.
    split; [done |]. split; [apply Hn; [lia | done] |]. split; [by apply He |].
    intros Hok. by apply Hp in Hok; [| lia]. }
  destruct (validate_value isEmail _ (prop obj "confirmpassword")) as [vc |].
  { right; right; right. simplify_eq.
    split; [done |]. split; [apply Hn; [lia | done] |]. split; [by apply He |].
    split; [apply Hp; [lia | done] |].
    intros Hok. by apply Hc in Hok; [| lia]. }
  destruct allowUnknown; [done |].
  destruct (unknown_keys _ obj); [done | by simplify_eq].
Qed.

Lemma first_offending_field_reported_witness :
  let obj := body (create_request (JStr "Alice") (JStr "a.x.com") (JStr "123") (JStr "1")) in
  validate simple_email false usersValidator.createUser obj
    = Some ("Email", joi.string_email)
  ∧ string_of_length 1 100 (prop obj "name")
  ∧ ¬ email_string simple_email (prop obj "email").
Proof.
  intros obj.
  assert (Herr : validate simple_email false usersValidator.createUser obj
                 = Some ("Email", joi.string_email)) by reflexivity.
  split; [exact Herr |].
  destruct (first_offending_field_reported simple_email false obj _ _ Herr)
    as [[? _] | [(_ & ? & ?) | [[? _] | [? _]]]]; done.
Defined.
